(** * A shallow embedding of the three lint rules of [@tnnquang/eslint]

    The development follows [src/lib/index.js]:
    - [NoArrowComponents]  : rule [no-arrow-components];
    - [NoNamespaceImport]  : rule [no-namespace-import];
    - [EnforcePathAlias]   : rule [enforce-path-alias], together with a
      model of the POSIX flavour of Node's [path] module ([NodePath]).
    - [NoArrowComponentsFacts], [NoNamespaceImportFacts] and
      [EnforcePathAliasFacts] : further properties of the three rules.

    Every rule is a function [create] from a context to a set of visitor
    callbacks.  The mutable state a rule closes over is passed explicitly;
    reports are collected in the order in which [context.report] is called. *)

From Stdlib Require Import String Ascii List Bool Arith Lia.
Import ListNotations.
Open Scope string_scope.
Open Scope list_scope.
Open Scope nat_scope.

Set Implicit Arguments.
Set Warnings "-register-all".

(** ** JavaScript string and array primitives used by the rules *)

Module JS.

(** [s.startsWith(p)] *)
Definition startsWith (s p : string) : bool := String.prefix p s.

(** [s.endsWith(p)] *)
Definition endsWith (s p : string) : bool :=
  let n := String.length s in
  let m := String.length p in
  if m <=? n then String.eqb (substring (n - m) m s) p else false.

(** [l.join(sep)] *)
Definition join (sep : string) (l : list string) : string :=
  String.concat sep l.

(** [s.split(c)] for a one-character separator. *)
Fixpoint split (sep : ascii) (s : string) : list string :=
  match s with
  | EmptyString => [EmptyString]
  | String c s' =>
      if Ascii.eqb c sep then EmptyString :: split sep s'
      else match split sep s' with
           | [] => [String c EmptyString]
           | h :: t => String c h :: t
           end
  end.

(** [s.slice(0, start) + text + s.slice(end)] : the text edit a fixer
    object describes, applied to the source text. *)
Definition splice (s : string) (start stop : nat) (text : string) : string :=
  (substring 0 start s ++ text ++ substring stop (String.length s - stop) s)%string.

(** [o || d] on an optional string: the empty string is falsy. *)
Definition or_string (o : option string) (d : string) : string :=
  match o with
  | Some EmptyString | None => d
  | Some s => s
  end.

(** [o || false] and [o !== false] on an optional boolean. *)
Definition or_false (o : option bool) : bool :=
  match o with Some b => b | None => false end.

Definition not_false (o : option bool) : bool :=
  match o with Some false => false | _ => true end.

(** [/\.(ts|tsx)$/.test(filename)] *)
Definition isTypeScriptFile (filename : string) : bool :=
  endsWith filename ".ts" || endsWith filename ".tsx".

(** [l.includes(x)] on an array of strings; also [set.has(x)]. *)
Definition includes (l : list string) (x : string) : bool :=
  existsb (String.eqb x) l.

(** A [Set] of strings keeps its elements in insertion order:
    [set.add(x)] appends [x] unless it is already a member. *)
Definition set_add (set : list string) (x : string) : list string :=
  if includes set x then set else set ++ [x].

(** [new Set(l)] *)
Definition set_of (l : list string) : list string :=
  fold_left set_add l [].

(** [l.sort()] on strings: ascending in the order of the character
    codes.  The result of sorting does not depend on the algorithm, the
    order being total; insertion sort stands for the engine's. *)
Fixpoint insert_sorted (x : string) (l : list string) : list string :=
  match l with
  | [] => [x]
  | y :: t => if String.leb x y then x :: y :: t else y :: insert_sorted x t
  end.

Definition sort (l : list string) : list string :=
  fold_right insert_sorted [] l.

End JS.

(** ** The part of the ESTree interface the rules read *)

Module ESTree.

(** [node.range]: start and end offset in the source text. *)
Definition Range : Type := (nat * nat)%type.


(** What a [fix(fixer)] callback returns. *)
Inductive Fix : Type :=
| ReplaceText (target : Range) (text : string)
| Remove (target : Range).

Definition applyFix (src : string) (f : Fix) : string :=
  match f with
  | ReplaceText (a, b) text => JS.splice src a b text
  | Remove (a, b) => JS.splice src a b ""
  end.

End ESTree.

(** ** Rule [no-arrow-components] *)

Module NoArrowComponents.
Import ESTree.

(** Expressions, as far as the rule looks into them. *)
Inductive Expr : Type :=
| ArrowFunctionExpression (body : ArrowBody)
| FunctionExpression
| CallExpression (arguments : list Expr)
| JSXElement
| OtherExpr
with ArrowBody : Type :=
| ExprBody (e : Expr)
| BlockStatement (body : list Stmt)
with Stmt : Type :=
| ReturnStatement (argument : option Expr)
| OtherStmt.

Inductive Pattern : Type :=
| Identifier (name : string)
| OtherPattern.

Record VariableDeclarator : Type := {
  d_range : Range;
  id : Pattern;
  init : option Expr
}.

Inductive ParentType : Type :=
| Program
| ExportNamedDeclaration
| OtherParent.

Record VariableDeclarationNode : Type := {
  parent : ParentType;
  declarations : list VariableDeclarator
}.

Inductive MessageId : Type :=
| arrowComponent
| arrowFunction
| tsArrowComponent
| tsArrowFunction.

Record Report : Type := {
  r_node : Range;
  messageId : MessageId;
  r_name : string
}.

Record Options : Type := {
  allowArrowFunctions : option bool;
  checkTypeScript : option bool
}.

Record Context : Type := {
  options : Options;
  getFilename : string
}.

Definition is_upper (c : ascii) : bool :=
  let n := nat_of_ascii c in (65 <=? n) && (n <=? 90).

Definition is_lower (c : ascii) : bool :=
  let n := nat_of_ascii c in (97 <=? n) && (n <=? 122).

Definition is_digit (c : ascii) : bool :=
  let n := nat_of_ascii c in (48 <=? n) && (n <=? 57).

Fixpoint all_chars (p : ascii -> bool) (s : string) : bool :=
  match s with
  | EmptyString => true
  | String c r => p c && all_chars p r
  end.

(** [/^[A-Z][a-zA-Z0-9]*$/.test(name)] *)
Definition isPascalCase (name : string) : bool :=
  match name with
  | EmptyString => false
  | String c r =>
      is_upper c
      && all_chars (fun x => is_lower x || is_upper x || is_digit x) r
  end.

Section Rule.
Variable context : Context.

Definition allow : bool := JS.or_false (allowArrowFunctions (options context)).
Definition checkTS : bool := JS.not_false (checkTypeScript (options context)).
Definition isTypeScript : bool := JS.isTypeScriptFile (getFilename context).

(** [stmt.type === "ReturnStatement" && stmt.argument &&
     stmt.argument.type === "JSXElement"] *)
Definition returnsJSX (stmt : Stmt) : bool :=
  match stmt with
  | ReturnStatement (Some JSXElement) => true
  | _ => false
  end.

Definition isReactComponent (node : VariableDeclarator) (name : string) : bool :=
  if negb (isPascalCase name) then false
  else
    if isTypeScript && checkTS then
      match init node with
      | Some (ArrowFunctionExpression (ExprBody JSXElement)) => true
      | Some (ArrowFunctionExpression (BlockStatement stmts)) =>
          existsb returnsJSX stmts
      | _ => isPascalCase name
      end
    else isPascalCase name.

(** [init.type === "ArrowFunctionExpression" ||
     init.type === "FunctionExpression"] *)
Definition isFunctionValue (e : Expr) : bool :=
  match e with
  | ArrowFunctionExpression _ | FunctionExpression => true
  | _ => false
  end.

(** The higher-order-component shape [memo(() => ...)]. *)
Definition isWrappedCall (e : Expr) : bool :=
  match e with
  | CallExpression (a :: _) => isFunctionValue a
  | _ => false
  end.

(** The body of [for (const decl of node.declarations)].  A [return]
    inside the loop leaves the whole callback, so the reports of the
    remaining declarators are not produced; [continue] and falling off
    the end of the body go on with [rest].  Every element of
    [node.declarations] is a [VariableDeclarator], so the first test of
    the guard never fires. *)
Fixpoint declaratorLoop (decls : list VariableDeclarator) : list Report :=
  match decls with
  | [] => []
  | decl :: rest =>
      match id decl, init decl with
      | Identifier name, Some ini =>
          let isComponent := isReactComponent decl name in
          if isComponent && isWrappedCall ini then []
          else if isComponent && isFunctionValue ini then
            [ {| r_node := d_range decl;
                 messageId := if isTypeScript && checkTS
                              then tsArrowComponent else arrowComponent;
                 r_name := name |} ]
          else if negb isComponent && negb allow && isFunctionValue ini then
            {| r_node := d_range decl;
               messageId := if isTypeScript && checkTS
                            then tsArrowFunction else arrowFunction;
               r_name := name |} :: declaratorLoop rest
          else declaratorLoop rest
      | _, _ => declaratorLoop rest
      end
  end.

Definition VariableDeclaration (node : VariableDeclarationNode) : list Report :=
  match parent node with
  | Program | ExportNamedDeclaration => declaratorLoop (declarations node)
  | OtherParent => []
  end.

End Rule.

(** *** Sample programs *)

(** A [.tsx] file and a [.jsx] file, both with the default options. *)
Definition tsxFile : Context :=
  {| options := {| allowArrowFunctions := None; checkTypeScript := None |};
     getFilename := "/proj/src/App.tsx" |}.

Definition jsxFile : Context :=
  {| options := {| allowArrowFunctions := None; checkTypeScript := None |};
     getFilename := "/proj/src/App.jsx" |}.

(** [const Foo = () => <div/>, bar = () => 1;] *)
Definition declFoo : VariableDeclarator :=
  {| d_range := (6, 24);
     id := Identifier "Foo";
     init := Some (ArrowFunctionExpression (ExprBody JSXElement)) |}.

Definition declBar : VariableDeclarator :=
  {| d_range := (26, 39);
     id := Identifier "bar";
     init := Some (ArrowFunctionExpression (ExprBody OtherExpr)) |}.

Definition fooThenBar : VariableDeclarationNode :=
  {| parent := Program; declarations := [declFoo; declBar] |}.

(** [const Foo = () => { return 1; };] *)
Definition declFooBlock : VariableDeclarator :=
  {| d_range := (6, 33);
     id := Identifier "Foo";
     init := Some (ArrowFunctionExpression
                     (BlockStatement [ReturnStatement (Some OtherExpr)])) |}.

(** *** Properties *)

Lemma isReactComponent_not_pascal context node name :
  isPascalCase name = false -> isReactComponent context node name = false.
Proof.
  intros H. unfold isReactComponent. now rewrite H.
Qed.

Lemma bar_alone_is_reported :
  VariableDeclaration jsxFile {| parent := Program; declarations := [declBar] |}
  = [ {| r_node := (26, 39); messageId := arrowFunction; r_name := "bar" |} ].
Proof. reflexivity. Qed.

(** C4.  The handler leaves the whole [VariableDeclaration] callback after
    the first component report: in [const Foo = () => <div/>, bar = () => 1;]
    (and with any other declarators [rest] after [Foo]) only [Foo] is
    reported, although [bar] on its own is reported as a top-level
    function.  The same happens after the higher-order-wrapping exemption:
    [const Foo = memo(() => <div/>), bar = () => 1;] reports nothing. *)
Theorem C4_return_skips_remaining_declarators :
  (forall rest,
      VariableDeclaration jsxFile
        {| parent := Program; declarations := declFoo :: rest |}
      = [ {| r_node := (6, 24); messageId := arrowComponent; r_name := "Foo" |} ])
  /\ VariableDeclaration jsxFile fooThenBar
     = [ {| r_node := (6, 24); messageId := arrowComponent; r_name := "Foo" |} ]
  /\ (forall rest,
        VariableDeclaration jsxFile
          {| parent := Program;
             declarations :=
               {| d_range := (6, 30); id := Identifier "Foo";
                  init := Some (CallExpression
                                  [ArrowFunctionExpression (ExprBody JSXElement)]) |}
               :: rest |}
        = []).
Proof.
  repeat split; intros; reflexivity.
Qed.

(** C5, as stated, fails: in a [.tsx] file the PascalCase binding
    [const Foo = () => { return 1; }] is not classified as a component; it
    is reported as a plain top-level function. *)
Lemma C5_block_body_without_jsx_is_not_a_component :
  isPascalCase "Foo" = true
  /\ isReactComponent tsxFile declFooBlock "Foo" = false
  /\ VariableDeclaration tsxFile
       {| parent := Program; declarations := [declFooBlock] |}
     = [ {| r_node := (6, 33); messageId := tsArrowFunction; r_name := "Foo" |} ].
Proof. repeat split; reflexivity. Qed.

(** C5, amended.  For a PascalCase name the classification is by naming
    alone, except in a TypeScript file with [checkTypeScript] on when the
    initializer is an arrow function with a block body: there the binding
    is a component exactly when one of the statements of the block is a
    [return] of a JSX element. *)
Theorem C5_component_classification context node name :
  isPascalCase name = true ->
  isReactComponent context node name =
    match init node with
    | Some (ArrowFunctionExpression (BlockStatement stmts)) =>
        if isTypeScript context && checkTS context
        then existsb returnsJSX stmts
        else true
    | _ => true
    end.
Proof.
  intros H. unfold isReactComponent. rewrite H. cbn [negb].
  destruct (isTypeScript context && checkTS context).
  - destruct (init node) as [[[[]|]| | | |]|]; reflexivity.
  - destruct (init node) as [[[|]| | | |]|]; reflexivity.
Qed.

(** The classification of [const Foo = () => { return 1; }] in a [.tsx] and in
    a [.jsx] file. *)
Lemma C5_component_classification_witness :
  isPascalCase "Foo" = true
  /\ isReactComponent tsxFile declFooBlock "Foo" = false
  /\ isReactComponent jsxFile declFooBlock "Foo" = true.
Proof.
  split; [reflexivity|].
  split.
  - exact (C5_component_classification tsxFile declFooBlock "Foo" eq_refl).
  - exact (C5_component_classification jsxFile declFooBlock "Foo" eq_refl).
Defined.

End NoArrowComponents.

(** ** Rule [no-namespace-import] *)

Module NoNamespaceImport.
Import ESTree.

Inductive Specifier : Type :=
| ImportDefaultSpecifier (local : string)
| ImportSpecifier (imported : string) (local : string)
| ImportNamespaceSpecifier (local : string).

(** [node.importKind] *)
Inductive ImportKind : Type :=
| KindValue
| KindType.

Record ImportDeclarationNode : Type := {
  i_range : Range;
  source : string;               (* node.source.value *)
  importKind : ImportKind;
  specifiers : list Specifier
}.

(** The object and the property of a member expression: the rule only
    asks whether each is an [Identifier] and, if so, for its name. *)
Inductive Node : Type :=
| Identifier (name : string)
| OtherNode.

Record MemberExpressionNode : Type := {
  m_range : Range;
  object : Node;
  property : Node
}.

Inductive MessageId : Type :=
| noNamespaceUsage
| noDefaultImportForNamespace
| noTypeNamespaceUsage
| noDefaultTypeImportForNamespace.

Record Report : Type := {
  r_node : Range;
  messageId : MessageId;
  data : list (string * string);
  fix_ : Fix                     (* what [fix(fixer)] returns *)
}.

Record Options : Type := {
  allowedLibraries : option (list string);
  targetLibraries : option (list string);
  checkTypeScriptTypes : option bool;
  allowTypeNamespaces : option bool
}.

Record Context : Type := {
  options : Options;
  getFilename : string
}.

(** One entry of the arrays stored in [defaultImports]. *)
Record ImportInfo : Type := {
  node : ImportDeclarationNode;
  localName : string;
  libraryName : string;
  isUsedAsNamespace : bool;
  namespacedProperties : list string;     (* a Set, in insertion order *)
  isTypeImport : bool
}.

(** [defaultImports]: a [Map] from library name to an array of import
    infos, iterated in the order in which the keys were first set. *)
Definition DefaultImports : Type := list (string * list ImportInfo).

(** [if (!m.has(k)) m.set(k, []); m.get(k).push(info)] *)
Fixpoint map_push (m : DefaultImports) (k : string) (info : ImportInfo)
  : DefaultImports :=
  match m with
  | [] => [(k, [info])]
  | (k', l) :: rest =>
      if String.eqb k' k then (k', l ++ [info]) :: rest
      else (k', l) :: map_push rest k info
  end.

(** The visits of one traversal, in document order. *)
Inductive Event : Type :=
| EImport (n : ImportDeclarationNode)
| EMember (m : MemberExpressionNode).

Definition isDefaultSpecifier (s : Specifier) : bool :=
  match s with ImportDefaultSpecifier _ => true | _ => false end.

Definition isTypeKind (k : ImportKind) : bool :=
  match k with KindType => true | KindValue => false end.

Section Rule.
Variable context : Context.

Definition allowed : list string :=
  match allowedLibraries (options context) with Some l => l | None => [] end.
Definition targets : list string :=
  match targetLibraries (options context) with Some l => l | None => [] end.
Definition shouldCheckAllLibraries : bool :=
  match targets with [] => true | _ => false end.
Definition checkTypes : bool := JS.not_false (checkTypeScriptTypes (options context)).
Definition allowTypeNS : bool := JS.or_false (allowTypeNamespaces (options context)).
Definition isTypeScript : bool := JS.isTypeScriptFile (getFilename context).

Definition shouldCheckLibrary (lib : string) : bool :=
  if JS.includes allowed lib then false
  else shouldCheckAllLibraries || JS.includes targets lib.

(** The import info an [ImportDeclaration] visit pushes, if any. *)
Definition importRecord (n : ImportDeclarationNode) : option ImportInfo :=
  let lib := source n in
  if negb (shouldCheckLibrary lib) then None
  else
    match find isDefaultSpecifier (specifiers n) with
    | Some (ImportDefaultSpecifier local) =>
        let isTypeOnlyImport :=
          isTypeScript && checkTypes && isTypeKind (importKind n) in
        if isTypeOnlyImport && allowTypeNS then None
        else Some {| node := n;
                     localName := local;
                     libraryName := lib;
                     isUsedAsNamespace := false;
                     namespacedProperties := [];
                     isTypeImport := isTypeOnlyImport |}
    | _ => None
    end.

Definition ImportDeclaration (st : DefaultImports) (n : ImportDeclarationNode)
  : DefaultImports :=
  match importRecord n with
  | Some info => map_push st (source n) info
  | None => st
  end.

(** [defaultImport.isUsedAsNamespace = true;
     defaultImport.namespacedProperties.add(propertyName);] *)
Definition markUsed (imp : ImportInfo) (propertyName : string) : ImportInfo :=
  {| node := node imp;
     localName := localName imp;
     libraryName := libraryName imp;
     isUsedAsNamespace := true;
     namespacedProperties := JS.set_add (namespacedProperties imp) propertyName;
     isTypeImport := isTypeImport imp |}.

(** [imports.find(imp => imp.localName === objectName)] followed by the
    two assignments to the info it returns; the array holds the info
    by reference, so the update is seen in place. *)
Fixpoint markFirst (objectName propertyName : string) (imports : list ImportInfo)
  : option (list ImportInfo * ImportInfo) :=
  match imports with
  | [] => None
  | imp :: rest =>
      if String.eqb (localName imp) objectName then
        Some (markUsed imp propertyName :: rest, markUsed imp propertyName)
      else
        match markFirst objectName propertyName rest with
        | Some (rest', found) => Some (imp :: rest', found)
        | None => None
        end
  end.

Definition inlineReport (m : MemberExpressionNode)
           (objectName propertyName lib : string) (typeImport : bool) : Report :=
  {| r_node := m_range m;
     messageId := if typeImport then noTypeNamespaceUsage else noNamespaceUsage;
     data := [("objectName", objectName);
              ("propertyName", propertyName);
              ("libraryName", lib)];
     fix_ := ReplaceText (m_range m) propertyName |}.

(** [for (const [libraryName, imports] of defaultImports.entries())]
    in the [MemberExpression] visitor, left at the first match. *)
Fixpoint memberLoop (m : MemberExpressionNode) (objectName propertyName : string)
         (entries : DefaultImports) : DefaultImports * list Report :=
  match entries with
  | [] => ([], [])
  | (lib, imports) :: rest =>
      match markFirst objectName propertyName imports with
      | Some (imports', found) =>
          ((lib, imports') :: rest,
           [inlineReport m objectName propertyName lib (isTypeImport found)])
      | None =>
          let (rest', rs) := memberLoop m objectName propertyName rest in
          ((lib, imports) :: rest', rs)
      end
  end.

Definition MemberExpression (st : DefaultImports) (m : MemberExpressionNode)
  : DefaultImports * list Report :=
  match object m, property m with
  | Identifier objectName, Identifier propertyName =>
      memberLoop m objectName propertyName st
  | _, _ => (st, [])
  end.

(** [propertiesArray.slice(0, 3).join(", ") +
     (propertiesArray.length > 3 ? ", ..." : "")] *)
Definition propertiesString (props : list string) : string :=
  (JS.join ", " (firstn 3 props)
   ++ (if (3 <? List.length props)%nat then ", ..." else ""))%string.

Definition importedName (s : Specifier) : list string :=
  match s with ImportSpecifier imported _ => [imported] | _ => [] end.

(** The names the rewritten import lists: the named imports already
    present, then the observed properties, without repetition. *)
Definition allNeededNamedImports (imp : ImportInfo) : list string :=
  JS.set_of (JS.set_of (flat_map importedName (specifiers (node imp)))
             ++ namespacedProperties imp).

Definition newImportStatement (lib : string) (imp : ImportInfo) : string :=
  ((if isTypeImport imp then "import type" else "import")
   ++ " { " ++ JS.join ", " (JS.sort (allNeededNamedImports imp))
   ++ " } from '" ++ lib ++ "';")%string.

Definition summaryFix (lib : string) (imp : ImportInfo) : Fix :=
  match allNeededNamedImports imp with
  | [] => Remove (i_range (node imp))
  | _ => ReplaceText (i_range (node imp)) (newImportStatement lib imp)
  end.

Definition summaryReport (lib : string) (imp : ImportInfo) : Report :=
  {| r_node := i_range (node imp);
     messageId := if isTypeImport imp
                  then noDefaultTypeImportForNamespace
                  else noDefaultImportForNamespace;
     data := [("importName", localName imp);
              ("libraryName", lib);
              ("properties", propertiesString (namespacedProperties imp))];
     fix_ := summaryFix lib imp |}.

(** ["Program:exit"] *)
Definition ProgramExit (st : DefaultImports) : list Report :=
  flat_map (fun entry : string * list ImportInfo =>
              let (lib, imports) := entry in
              flat_map (fun imp => if isUsedAsNamespace imp
                                   then [summaryReport lib imp] else [])
                       imports)
           st.

Definition visit (st : DefaultImports) (ev : Event) : DefaultImports * list Report :=
  match ev with
  | EImport n => (ImportDeclaration st n, [])
  | EMember m => MemberExpression st m
  end.

Fixpoint traverse (st : DefaultImports) (evs : list Event)
  : DefaultImports * list Report :=
  match evs with
  | [] => (st, [])
  | ev :: rest =>
      let (st1, r1) := visit st ev in
      let (st2, r2) := traverse st1 rest in
      (st2, r1 ++ r2)
  end.

(** All reports of one file: the visits start from an empty
    [defaultImports]; ["Program:exit"] runs once, last. *)
Definition lint (evs : list Event) : list Report :=
  let (st, rs) := traverse [] evs in rs ++ ProgramExit st.

End Rule.

(** *** Vocabulary for the statements *)

(** The local name an import declaration binds by a default specifier. *)
Definition defaultLocal (n : ImportDeclarationNode) : option string :=
  match find isDefaultSpecifier (specifiers n) with
  | Some (ImportDefaultSpecifier local) => Some local
  | _ => None
  end.

(** The member-access sites [name.p] of a file, with the property name. *)
Definition accessOf (name : string) (ev : Event)
  : list (MemberExpressionNode * string) :=
  match ev with
  | EMember m =>
      match object m, property m with
      | Identifier o, Identifier p => if String.eqb o name then [(m, p)] else []
      | _, _ => []
      end
  | EImport _ => []
  end.

Definition accessesOf (name : string) (evs : list Event)
  : list (MemberExpressionNode * string) :=
  flat_map (accessOf name) evs.

Definition isInline (r : Report) : bool :=
  match messageId r with
  | noNamespaceUsage | noTypeNamespaceUsage => true
  | _ => false
  end.



Definition recordNames (st : DefaultImports) : list string :=
  flat_map (fun e : string * list ImportInfo => map localName (snd e)) st.

Definition records (st : DefaultImports) : list ImportInfo :=
  flat_map (fun e : string * list ImportInfo => snd e) st.





(** An import info whose namespace flag is set has a property. *)
Definition wellMarked (imp : ImportInfo) : Prop :=
  isUsedAsNamespace imp = true -> namespacedProperties imp <> [].

Definition isRemove (f : Fix) : bool :=
  match f with Remove _ => true | ReplaceText _ _ => false end.

(** The import infos of the state with the key they are stored under, in
    the order in which [Program:exit] meets them. *)
Definition entriesOf (st : DefaultImports) : list (string * ImportInfo) :=
  flat_map (fun e : string * list ImportInfo => map (pair (fst e)) (snd e)) st.

Definition named (name : string) (kr : string * ImportInfo) : bool :=
  String.eqb (localName (snd kr)) name.

(** Every info but those of the binding [name] is unused. *)
Definition othersUnused (name : string) (st : DefaultImports) : Prop :=
  Forall (fun kr : string * ImportInfo =>
            named name kr = false -> isUsedAsNamespace (snd kr) = false)
         (entriesOf st).

(** A visit that records no info for [name] and accesses no other binding
    among the [declared] ones, the local names the state may hold. *)
Definition calm (context : Context) (name : string) (declared : string -> Prop)
           (ev : Event) : Prop :=
  match ev with
  | EImport n =>
      forall q, importRecord context n = Some q ->
                localName q <> name /\ declared (localName q)
  | EMember m =>
      forall o p, object m = Identifier o -> property m = Identifier p ->
                  o = name \/ ~ declared o
  end.

Definition within (declared : string -> Prop) (st : DefaultImports) : Prop :=
  forall x, In x (recordNames st) -> declared x.

(** How an import info evolves over the accesses [props] to its binding. *)
Definition markAll (imp : ImportInfo) (props : list string) : ImportInfo :=
  fold_left markUsed props imp.

(** *** Sample files *)

Definition defaultOptions : Options :=
  {| allowedLibraries := None; targetLibraries := None;
     checkTypeScriptTypes := None; allowTypeNamespaces := None |}.

Definition jsFile : Context :=
  {| options := defaultOptions; getFilename := "/proj/src/list.js" |}.

(** [import React from 'react';] on the first line and
    [import _ from 'lodash';] on the second. *)
Definition importReact : ImportDeclarationNode :=
  {| i_range := (0, 26); source := "react"; importKind := KindValue;
     specifiers := [ImportDefaultSpecifier "React"] |}.

Definition importLodash : ImportDeclarationNode :=
  {| i_range := (27, 51); source := "lodash"; importKind := KindValue;
     specifiers := [ImportDefaultSpecifier "_"] |}.

Definition access (start : nat) (obj prop : string) : MemberExpressionNode :=
  {| m_range := (start, start + String.length obj + 1 + String.length prop);
     object := Identifier obj; property := Identifier prop |}.

(** [_.map; _.filter; _.chunk; _.each;] after the import. *)
Definition fourAccesses : list Event :=
  [EMember (access 60 "_" "map"); EMember (access 70 "_" "filter");
   EMember (access 80 "_" "chunk"); EMember (access 90 "_" "each")].

Definition tsFile (checkTypes allowNS : option bool) : Context :=
  {| options := {| allowedLibraries := None; targetLibraries := None;
                   checkTypeScriptTypes := checkTypes;
                   allowTypeNamespaces := allowNS |};
     getFilename := "/proj/src/types.ts" |}.

(** [import type React from 'react';] *)
Definition importTypeReact : ImportDeclarationNode :=
  {| i_range := (0, 31); source := "react"; importKind := KindType;
     specifiers := [ImportDefaultSpecifier "React"] |}.

(** *** Sets in insertion order *)

Lemma includes_In l x : JS.includes l x = true <-> In x l.
Proof.
  unfold JS.includes. rewrite existsb_exists. split.
  - intros [y [Hy He]]. apply String.eqb_eq in He. now subst.
  - intros H. exists x. split; [assumption | apply String.eqb_refl].
Qed.

Lemma includes_not_In l x : JS.includes l x = false <-> ~ In x l.
Proof.
  rewrite <- includes_In. destruct (JS.includes l x); split; congruence.
Qed.

Lemma set_add_In set x y : In y (JS.set_add set x) <-> In y set \/ y = x.
Proof.
  unfold JS.set_add. destruct (JS.includes set x) eqn:E.
  - apply includes_In in E. split; [tauto | intros [H | ->]; assumption].
  - rewrite in_app_iff. simpl. split; intros [H | H]; auto.
    + destruct H as [H | []]; auto.
Qed.

Lemma set_add_nonempty set x : JS.set_add set x <> [].
Proof.
  intros H. assert (In x (JS.set_add set x)) by (apply set_add_In; auto).
  rewrite H in H0. contradiction.
Qed.

Lemma fold_set_add_In l : forall acc y,
  In y (fold_left JS.set_add l acc) <-> In y acc \/ In y l.
Proof.
  induction l as [|x l IH]; intros acc y; simpl.
  - tauto.
  - rewrite IH, set_add_In. intuition.
Qed.

Lemma fold_set_add_fresh l : forall acc,
  NoDup (acc ++ l) -> fold_left JS.set_add l acc = acc ++ l.
Proof.
  induction l as [|x l IH]; intros acc H; simpl.
  - now rewrite app_nil_r.
  - assert (Hx : ~ In x acc).
    { apply NoDup_remove_2 in H. intros Hin. apply H.
      apply in_or_app. now left. }
    unfold JS.set_add at 2. apply includes_not_In in Hx. rewrite Hx.
    rewrite IH; rewrite <- app_assoc; simpl; [reflexivity | assumption].
Qed.

Lemma set_of_nonempty a b : b <> [] -> JS.set_of (a ++ b) <> [].
Proof.
  destruct b as [|x b]; [congruence | intros _ H].
  assert (Hin : In x (JS.set_of (a ++ x :: b))).
  { unfold JS.set_of. apply fold_set_add_In. right.
    apply in_or_app. right. now left. }
  rewrite H in Hin. contradiction.
Qed.

(** *** The traversal *)

Section Facts.
Variable context : Context.

Lemma traverse_app evs1 : forall st evs2,
  traverse context st (evs1 ++ evs2) =
    let (st1, r1) := traverse context st evs1 in
    let (st2, r2) := traverse context st1 evs2 in
    (st2, r1 ++ r2).
Proof.
  induction evs1 as [|ev evs1 IH]; intros st evs2; simpl.
  - now destruct (traverse context st evs2).
  - destruct (visit context st ev) as [st1 r1].
    rewrite IH.
    destruct (traverse context st1 evs1) as [st2 r2].
    destruct (traverse context st2 evs2) as [st3 r3].
    now rewrite app_assoc.
Qed.

Lemma importRecord_fields n r :
  importRecord context n = Some r ->
  node r = n /\ libraryName r = source n /\ isUsedAsNamespace r = false
  /\ namespacedProperties r = [] /\ defaultLocal n = Some (localName r)
  /\ isTypeImport r
     = isTypeScript context && checkTypes context && isTypeKind (importKind n).
Proof.
  unfold importRecord, defaultLocal.
  destruct (negb (shouldCheckLibrary context (source n))); [discriminate|].
  destruct (find isDefaultSpecifier (specifiers n)) as [[l | |]|]; try discriminate.
  destruct (_ && allowTypeNS context); [discriminate|].
  intros [= <-]. simpl. repeat split; reflexivity.
Qed.

Lemma importRecord_no_default n :
  defaultLocal n = None -> importRecord context n = None.
Proof.
  unfold importRecord, defaultLocal.
  destruct (negb (shouldCheckLibrary context (source n))); [reflexivity|].
  destruct (find isDefaultSpecifier (specifiers n)) as [[l | |]|];
    try reflexivity; discriminate.
Qed.

End Facts.

Lemma isInline_map_inline name lib ty (l : list (MemberExpressionNode * string)) :
  filter isInline
    (map (fun a => inlineReport (fst a) name (snd a) lib ty) l)
  = map (fun a => inlineReport (fst a) name (snd a) lib ty) l.
Proof.
  induction l as [|a l IH]; simpl; [reflexivity|].
  destruct ty; simpl; now rewrite IH.
Qed.

Lemma isInline_summary lib imp : isInline (summaryReport lib imp) = false.
Proof. unfold isInline, summaryReport. simpl. now destruct (isTypeImport imp). Qed.

Lemma markAll_cons p props imp :
  markAll imp (p :: props) =
    {| node := node imp;
       localName := localName imp;
       libraryName := libraryName imp;
       isUsedAsNamespace := true;
       namespacedProperties :=
         fold_left JS.set_add (p :: props) (namespacedProperties imp);
       isTypeImport := isTypeImport imp |}.
Proof.
  revert p imp. unfold markAll.
  induction props as [|q props IH]; intros p imp; [reflexivity|].
  change (fold_left markUsed (p :: q :: props) imp)
    with (fold_left markUsed (q :: props) (markUsed imp p)).
  rewrite IH. reflexivity.
Qed.

(** *** Type-only imports *)

(** C2, as stated, fails on both counts.  With [checkTypeScriptTypes]
    off, the type-only import [import type React from 'react'] is recorded
    as a value import and [React.useState] is reported twice (inline and
    summary).  With [checkTypeScriptTypes] and [allowTypeNamespaces] both
    on, the import is not recorded: [defaultImports] stays empty, so no
    evidence is tracked for it. *)
Lemma C2_type_import_is_checked_or_dropped :
  lint (tsFile (Some false) None)
       [EImport importTypeReact; EMember (access 40 "React" "useState")]
  = [ {| r_node := (40, 54);
         messageId := noNamespaceUsage;
         data := [("objectName", "React"); ("propertyName", "useState");
                  ("libraryName", "react")];
         fix_ := ReplaceText (40, 54) "useState" |};
      {| r_node := (0, 31);
         messageId := noDefaultImportForNamespace;
         data := [("importName", "React"); ("libraryName", "react");
                  ("properties", "useState")];
         fix_ := ReplaceText (0, 31) "import { useState } from 'react';" |} ]
  /\ importRecord (tsFile (Some true) (Some true)) importTypeReact = None
  /\ fst (traverse (tsFile (Some true) (Some true)) []
            [EImport importTypeReact; EMember (access 40 "React" "useState")])
     = [].
Proof. repeat split; reflexivity. Qed.

Lemma lint_skip context n pre post :
  importRecord context n = None ->
  lint context (pre ++ EImport n :: post) = lint context (pre ++ post).
Proof.
  intros H. unfold lint. rewrite !traverse_app.
  destruct (traverse context [] pre) as [st1 r1].
  cbn [traverse visit]. unfold ImportDeclaration. rewrite H.
  destruct (traverse context st1 post) as [st2 r2]. reflexivity.
Qed.

(** C2, amended.  In a TypeScript file with [checkTypeScriptTypes] on, a
    type-only default import of a module in scope is
    - skipped when [allowTypeNamespaces] is on: the visit leaves
      [defaultImports] as it is, and the reports of any file are those of
      the file without the declaration;
    - recorded as a type import ([isTypeImport] set, nothing observed yet)
      when [allowTypeNamespaces] is off. *)
Theorem C2_type_only_import context n local :
  isTypeScript context = true ->
  importKind n = KindType ->
  shouldCheckLibrary context (source n) = true ->
  defaultLocal n = Some local ->
  checkTypes context = true ->
  (allowTypeNS context = true ->
     importRecord context n = None
     /\ (forall st, ImportDeclaration context st n = st)
     /\ (forall pre post,
            lint context (pre ++ EImport n :: post) = lint context (pre ++ post)))
  /\ (allowTypeNS context = false ->
      importRecord context n =
        Some {| node := n; localName := local; libraryName := source n;
                isUsedAsNamespace := false; namespacedProperties := [];
                isTypeImport := true |}).
Proof.
  intros Hts Hkind Hlib Hdef Hcheck.
  assert (Hrec : importRecord context n =
                 if allowTypeNS context then None
                 else Some {| node := n; localName := local; libraryName := source n;
                              isUsedAsNamespace := false; namespacedProperties := [];
                              isTypeImport := true |}).
  { unfold importRecord. unfold defaultLocal in Hdef.
    rewrite Hlib, Hts, Hcheck, Hkind. cbn [negb andb isTypeKind].
    destruct (find isDefaultSpecifier (specifiers n)) as [[l | |]|];
      try discriminate.
    injection Hdef as ->. reflexivity. }
  split; intros Hallow; rewrite Hallow in Hrec; [|assumption].
  split; [assumption|]. split.
  - intros st. unfold ImportDeclaration. now rewrite Hrec.
  - intros pre post. now apply lint_skip.
Qed.

(** [import type React from 'react'] in a [.ts] file, with
    [allowTypeNamespaces] on and off. *)
Lemma C2_type_only_import_witness :
  importRecord (tsFile (Some true) (Some true)) importTypeReact = None
  /\ importRecord (tsFile (Some true) (Some false)) importTypeReact =
       Some {| node := importTypeReact; localName := "React";
               libraryName := "react"; isUsedAsNamespace := false;
               namespacedProperties := []; isTypeImport := true |}.
Proof.
  split.
  - exact (proj1 (proj1 (@C2_type_only_import (tsFile (Some true) (Some true))
                           importTypeReact "React"
                           eq_refl eq_refl eq_refl eq_refl eq_refl) eq_refl)).
  - exact (proj2 (@C2_type_only_import (tsFile (Some true) (Some false))
                    importTypeReact "React"
                    eq_refl eq_refl eq_refl eq_refl eq_refl) eq_refl).
Defined.

(** *** What the state holds *)

Lemma records_map_push st : forall k info x,
  In x (records (map_push st k info)) <-> In x (records st) \/ x = info.
Proof.
  induction st as [|[k' l] st IH]; intros k info x; simpl.
  - intuition.
  - destruct (String.eqb k' k); unfold records in *; simpl.
    + rewrite !in_app_iff. simpl. intuition.
    + fold (records (map_push st k info)). rewrite !in_app_iff.
      unfold records in IH. rewrite IH. intuition.
Qed.

Lemma markFirst_spec o p imps : forall imps' found,
  markFirst o p imps = Some (imps', found) ->
  exists before imp after,
    imps = before ++ imp :: after
    /\ imps' = before ++ markUsed imp p :: after
    /\ found = markUsed imp p
    /\ localName imp = o.
Proof.
  induction imps as [|imp imps IH]; intros imps' found H; simpl in H.
  - discriminate.
  - destruct (String.eqb (localName imp) o) eqn:E.
    + injection H as <- <-. apply String.eqb_eq in E.
      exists [], imp, imps. repeat split; assumption.
    + destruct (markFirst o p imps) as [[rest' f]|]; [|discriminate].
      injection H as <- <-.
      destruct (IH _ _ eq_refl) as (b & i & a & -> & -> & -> & Hn).
      exists (imp :: b), i, a. repeat split; assumption.
Qed.

(** One [MemberExpression] visit either changes nothing or marks one
    info and reports once, at the visited node. *)
Lemma memberLoop_spec m o p st :
  memberLoop m o p st = (st, [])
  \/ exists before lib l1 imp l2 after,
       st = before ++ (lib, l1 ++ imp :: l2) :: after
       /\ localName imp = o
       /\ memberLoop m o p st =
            (before ++ (lib, l1 ++ markUsed imp p :: l2) :: after,
             [inlineReport m o p lib (isTypeImport imp)]).
Proof.
  induction st as [|[lib imps] st IH]; simpl.
  - now left.
  - destruct (markFirst o p imps) as [[imps' found]|] eqn:E.
    + right. destruct (@markFirst_spec _ _ _ _ _ E) as (b & i & a & -> & -> & -> & Hn).
      exists [], lib, b, i, a, st. repeat split. assumption.
    + destruct IH as [IH | (b & lib' & l1 & i & l2 & a & Hst & Hn & IH)];
        rewrite IH.
      * now left.
      * right. exists ((lib, imps) :: b), lib', l1, i, l2, a.
        subst st. repeat split. assumption.
Qed.

Lemma records_middle before lib (l1 : list ImportInfo) imp l2 after x :
  In x (records (before ++ (lib, l1 ++ imp :: l2) :: after)) <->
  x = imp \/ In x (records (before ++ (lib, l1 ++ l2) :: after)).
Proof.
  unfold records. rewrite !flat_map_app. simpl. rewrite !in_app_iff. simpl.
  intuition.
Qed.

Lemma wellMarked_markUsed imp p : wellMarked (markUsed imp p).
Proof. intros _. apply set_add_nonempty. Qed.

Section Invariants.
Variable context : Context.

Lemma visit_wellMarked st ev :
  Forall wellMarked (records st) ->
  Forall wellMarked (records (fst (visit context st ev))).
Proof.
  rewrite !Forall_forall. intros H x Hx.
  destruct ev as [n | m]; simpl in Hx.
  - unfold ImportDeclaration in Hx.
    destruct (importRecord context n) as [info|] eqn:E; [|auto].
    apply records_map_push in Hx. destruct Hx as [Hx | ->]; [auto|].
    intros Hu. destruct (@importRecord_fields _ _ _ E) as (_ & _ & Hf & _).
    congruence.
  - unfold MemberExpression in Hx.
    destruct (object m) as [o|]; [|auto].
    destruct (property m) as [p|]; [|auto].
    destruct (memberLoop_spec m o p st)
      as [E | (b & lib & l1 & i & l2 & a & Hst & _ & E)];
      rewrite E in Hx; simpl in Hx; [auto|].
    apply records_middle in Hx. destruct Hx as [-> | Hx].
    + apply wellMarked_markUsed.
    + apply H. subst st. apply records_middle. now right.
Qed.

Lemma traverse_wellMarked evs : forall st,
  Forall wellMarked (records st) ->
  Forall wellMarked (records (fst (traverse context st evs))).
Proof.
  induction evs as [|ev evs IH]; intros st H; simpl; [assumption|].
  pose proof (@visit_wellMarked st ev H) as H1.
  destruct (visit context st ev) as [st1 r1]. simpl in H1.
  specialize (IH _ H1).
  destruct (traverse context st1 evs) as [st2 r2]. exact IH.
Qed.

Lemma visit_reports_inline st ev r :
  In r (snd (visit context st ev)) ->
  exists m o p lib ty, r = inlineReport m o p lib ty.
Proof.
  destruct ev as [n | m]; simpl; [tauto|].
  unfold MemberExpression.
  destruct (object m) as [o|]; [|simpl; tauto].
  destruct (property m) as [p|]; [|simpl; tauto].
  destruct (memberLoop_spec m o p st)
    as [E | (b & lib & l1 & i & l2 & a & _ & _ & E)];
    rewrite E; simpl; [tauto|].
  intros [<- | []]. now exists m, o, p, lib, (isTypeImport i).
Qed.

Lemma traverse_reports_inline evs : forall st r,
  In r (snd (traverse context st evs)) ->
  exists m o p lib ty, r = inlineReport m o p lib ty.
Proof.
  induction evs as [|ev evs IH]; intros st r; simpl; [tauto|].
  pose proof (@visit_reports_inline st ev r) as Hv.
  destruct (visit context st ev) as [st1 r1].
  specialize (IH st1 r).
  destruct (traverse context st1 evs) as [st2 r2]. simpl in *.
  rewrite in_app_iff. intros [H | H]; auto.
Qed.
End Invariants.

Lemma ProgramExit_spec st r :
  In r (ProgramExit st) ->
  exists lib imp,
    In imp (records st) /\ isUsedAsNamespace imp = true
    /\ r = summaryReport lib imp.
Proof.
  unfold ProgramExit, records. rewrite in_flat_map.
  intros [[lib imps] [He Hr]]. rewrite in_flat_map in Hr.
  destruct Hr as [imp [Hi Hr]].
  destruct (isUsedAsNamespace imp) eqn:E; [|contradiction].
  destruct Hr as [<- | []].
  exists lib, imp. repeat split; [|assumption].
  apply in_flat_map. exists (lib, imps). now split.
Qed.

Lemma summaryFix_replaces lib imp :
  namespacedProperties imp <> [] ->
  summaryFix lib imp = ReplaceText (i_range (node imp)) (newImportStatement lib imp).
Proof.
  intros H. unfold summaryFix.
  pose proof (@set_of_nonempty
                (JS.set_of (flat_map importedName (specifiers (node imp))))
                (namespacedProperties imp) H) as Hne.
  fold (allNeededNamedImports imp) in Hne.
  destruct (allNeededNamedImports imp); [congruence | reflexivity].
Qed.

(** C9.  In every state a traversal reaches, an import info whose
    [isUsedAsNamespace] flag is set has a non-empty set of namespaced
    properties.  Hence every report that is not an inline report is the
    summary report of such an info, the union of the named imports and the
    observed properties is non-empty, and its fix replaces the text of the
    import declaration; no report of the rule carries a removal. *)
Theorem C9_summary_fix_never_removes context evs :
  Forall wellMarked (records (fst (traverse context [] evs)))
  /\ (forall r,
         In r (lint context evs) ->
         isInline r = false ->
         exists lib imp,
           In imp (records (fst (traverse context [] evs)))
           /\ namespacedProperties imp <> []
           /\ allNeededNamedImports imp <> []
           /\ r = summaryReport lib imp
           /\ fix_ r = ReplaceText (r_node r) (newImportStatement lib imp))
  /\ (forall r, In r (lint context evs) -> isRemove (fix_ r) = false).
Proof.
  assert (Hinv : Forall wellMarked (records (fst (traverse context [] evs)))).
  { apply traverse_wellMarked. constructor. }
  assert (Hsum : forall r,
             In r (ProgramExit (fst (traverse context [] evs))) ->
             exists lib imp,
               In imp (records (fst (traverse context [] evs)))
               /\ namespacedProperties imp <> []
               /\ allNeededNamedImports imp <> []
               /\ r = summaryReport lib imp
               /\ fix_ r = ReplaceText (r_node r) (newImportStatement lib imp)).
  { intros r Hr. destruct (@ProgramExit_spec _ _ Hr) as (lib & imp & Hin & Hu & ->).
    rewrite Forall_forall in Hinv. pose proof (Hinv _ Hin Hu) as Hp.
    exists lib, imp. repeat split; try assumption.
    - apply set_of_nonempty. assumption.
    - simpl. now apply summaryFix_replaces. }
  split; [assumption|]. split.
  - intros r Hr Hni. unfold lint in Hr.
    pose proof (@traverse_reports_inline context evs [] r) as Hin.
    destruct (traverse context [] evs) as [st rs]. simpl in *.
    apply in_app_or in Hr. destruct Hr as [Hr | Hr]; [|auto].
    destruct (Hin Hr) as (m & o & p & lib & ty & ->).
    destruct ty; discriminate.
  - intros r Hr. unfold lint in Hr.
    pose proof (@traverse_reports_inline context evs [] r) as Hin.
    destruct (traverse context [] evs) as [st rs]. simpl in *.
    apply in_app_or in Hr. destruct Hr as [Hr | Hr].
    + destruct (Hin Hr) as (m & o & p & lib & ty & ->). reflexivity.
    + destruct (Hsum _ Hr) as (lib & imp & _ & _ & _ & _ & ->). reflexivity.
Qed.

(** *** Re-running the rule on the fixed file *)


Lemma recordNames_records st x :
  In x (recordNames st) <-> exists imp, In imp (records st) /\ localName imp = x.
Proof.
  unfold recordNames, records. rewrite in_flat_map. split.
  - intros [e [He Hx]]. apply in_map_iff in Hx. destruct Hx as [imp [Hn Hi]].
    exists imp. split; [|assumption]. apply in_flat_map. now exists e.
  - intros [imp [Hi Hn]]. apply in_flat_map in Hi. destruct Hi as [e [He Hi]].
    exists e. split; [assumption|]. apply in_map_iff. now exists imp.
Qed.





Section Rerun.
Variable context : Context.
Variable name : string.




End Rerun.



(** *** One binding in focus *)

Lemma entriesOf_middle before lib (l1 : list ImportInfo) imp l2 after :
  entriesOf (before ++ (lib, l1 ++ imp :: l2) :: after)
  = (entriesOf before ++ map (pair lib) l1)
    ++ (lib, imp) :: (map (pair lib) l2 ++ entriesOf after).
Proof.
  unfold entriesOf. rewrite flat_map_app. cbn [flat_map fst snd].
  rewrite map_app. cbn [map]. now rewrite <- !app_assoc.
Qed.

Lemma entriesOf_map_push st : forall k q,
  exists X Y,
    entriesOf st = X ++ Y /\ entriesOf (map_push st k q) = X ++ (k, q) :: Y.
Proof.
  induction st as [|[k' l] st IH]; intros k q.
  - exists [], []. split; reflexivity.
  - cbn [map_push]. destruct (String.eqb k' k) eqn:E.
    + apply String.eqb_eq in E. subst k'.
      exists (map (pair k) l), (entriesOf st). split; [reflexivity|].
      unfold entriesOf. cbn [flat_map fst snd]. rewrite map_app.
      cbn [map]. now rewrite <- app_assoc.
    + destruct (IH k q) as (X & Y & H1 & H2).
      exists (map (pair k') l ++ X), Y. unfold entriesOf in *.
      cbn [flat_map fst snd]. rewrite H1, H2. now rewrite !app_assoc.
Qed.

Lemma recordNames_entriesOf st :
  recordNames st = map (fun kr => localName (snd kr)) (entriesOf st).
Proof.
  unfold recordNames, entriesOf.
  induction st as [|[k l] st IH]; [reflexivity|].
  cbn [flat_map fst snd]. rewrite map_app, IH, map_map. reflexivity.
Qed.

Lemma ProgramExit_entriesOf st :
  ProgramExit st =
    flat_map (fun kr : string * ImportInfo =>
                if isUsedAsNamespace (snd kr)
                then [summaryReport (fst kr) (snd kr)] else [])
             (entriesOf st).
Proof.
  unfold ProgramExit, entriesOf.
  induction st as [|[k l] st IH]; [reflexivity|].
  cbn [flat_map fst snd]. rewrite flat_map_app, IH. f_equal.
  induction l as [|r l IHl]; [reflexivity|].
  cbn [flat_map map fst snd]. now rewrite IHl.
Qed.

Lemma filter_singleton (A : Type) (f : A -> bool) l1 x l2 y :
  filter f (l1 ++ x :: l2) = [y] -> f x = true ->
  filter f l1 = [] /\ x = y /\ filter f l2 = [].
Proof.
  rewrite filter_app. cbn [filter]. intros H Hx. rewrite Hx in H.
  destruct (filter f l1) as [|a [|b t]]; cbn [app] in H.
  - injection H as -> H. now repeat split.
  - injection H as _ H. discriminate.
  - discriminate.
Qed.

(** A [MemberExpression] visit: when no info has the local name [o] nothing
    happens; otherwise the first such info is marked and reported. *)
Lemma memberLoop_cases m o p st :
  (~ In o (recordNames st) /\ memberLoop m o p st = (st, []))
  \/ exists before lib l1 imp l2 after,
       st = before ++ (lib, l1 ++ imp :: l2) :: after
       /\ localName imp = o
       /\ memberLoop m o p st =
            (before ++ (lib, l1 ++ markUsed imp p :: l2) :: after,
             [inlineReport m o p lib (isTypeImport imp)]).
Proof.
  induction st as [|[lib imps] st IH]; cbn [memberLoop].
  - left. split; [intros [] | reflexivity].
  - destruct (markFirst o p imps) as [[imps' found]|] eqn:E.
    + right. destruct (@markFirst_spec _ _ _ _ _ E) as (b & i & a & -> & -> & -> & Hn).
      exists [], lib, b, i, a, st. repeat split. assumption.
    + assert (Hmiss : ~ In o (map localName imps)).
      { clear IH. induction imps as [|i imps IHi]; [intros []|].
        cbn [markFirst] in E. destruct (String.eqb (localName i) o) eqn:Eo;
          [discriminate|].
        destruct (markFirst o p imps) as [[? ?]|]; [discriminate|].
        intros [H | H]; [apply String.eqb_neq in Eo; contradiction|].
        now apply IHi. }
      destruct IH as [[Hn IH] | (b & lib' & l1 & i & l2 & a & Hst & Hn & IH)];
        rewrite IH.
      * left. split; [|reflexivity]. unfold recordNames. cbn [flat_map snd].
        rewrite in_app_iff. intros [H | H]; contradiction.
      * right. exists ((lib, imps) :: b), lib', l1, i, l2, a.
        subst st. repeat split. assumption.
Qed.

Section Focus.
Variable context : Context.
Variable name : string.
Variable declared : string -> Prop.

Lemma map_push_calm st k q :
  localName q <> name -> isUsedAsNamespace q = false -> declared (localName q) ->
  othersUnused name st -> within declared st ->
  filter (named name) (entriesOf (map_push st k q))
  = filter (named name) (entriesOf st)
  /\ othersUnused name (map_push st k q)
  /\ within declared (map_push st k q).
Proof.
  intros Hn Hu Hd Ho Hw.
  destruct (entriesOf_map_push st k q) as (X & Y & H1 & H2).
  unfold othersUnused, within in *. rewrite recordNames_entriesOf in *.
  rewrite H2. rewrite H1 in Ho, Hw |- *.
  apply Forall_app in Ho. destruct Ho as [HX HY]. split; [|split].
  - rewrite !filter_app. cbn [filter]. unfold named at 2. cbn [snd].
    apply String.eqb_neq in Hn. now rewrite Hn.
  - apply Forall_app. split; [assumption|]. constructor; [|assumption].
    intros _. exact Hu.
  - intros x Hx. rewrite map_app in Hx. cbn [map snd] in Hx.
    rewrite in_app_iff in Hx. cbn [In] in Hx.
    destruct Hx as [Hx | [<- | Hx]]; [| exact Hd |];
      apply Hw; rewrite map_app, in_app_iff; tauto.
Qed.

(** Before the import of [name]: nothing is reported. *)
Lemma traverse_unfocused evs : forall st,
  Forall (calm context name declared) evs ->
  filter (named name) (entriesOf st) = [] ->
  othersUnused name st -> within declared st ->
  exists st',
    traverse context st evs = (st', [])
    /\ filter (named name) (entriesOf st') = []
    /\ othersUnused name st' /\ within declared st'.
Proof.
  induction evs as [|ev evs IH]; intros st Hevs Hf Ho Hw; cbn [traverse].
  - exists st. repeat split; assumption.
  - inversion Hevs as [|? ? Hev Hevs']; subst.
    assert (Hstep : visit context st ev = (fst (visit context st ev), [])
                    /\ filter (named name) (entriesOf (fst (visit context st ev))) = []
                    /\ othersUnused name (fst (visit context st ev))
                    /\ within declared (fst (visit context st ev))).
    { destruct ev as [n | m]; cbn [visit fst].
      - split; [reflexivity|]. unfold ImportDeclaration.
        destruct (importRecord context n) as [q|] eqn:E; [|repeat split; assumption].
        destruct (Hev q E) as [Hn Hd].
        destruct (@importRecord_fields _ _ _ E) as (_ & _ & Hu & _).
        destruct (@map_push_calm st (source n) q Hn Hu Hd Ho Hw) as (H1 & H2 & H3).
        rewrite H1. repeat split; assumption.
      - unfold MemberExpression.
        destruct (object m) as [o|] eqn:Eo; [|repeat split; assumption].
        destruct (property m) as [p|] eqn:Ep; [|repeat split; assumption].
        destruct (memberLoop_cases m o p st)
          as [[_ E] | (b & lib & l1 & i & l2 & a & Hst & Hn & _)].
        + rewrite E. repeat split; assumption.
        + exfalso. assert (Hin : In o (recordNames st)).
          { apply recordNames_records. exists i. split; [|assumption].
            subst st. apply records_middle. now left. }
          destruct (Hev o p Eo Ep) as [-> | Hnd]; [|now apply Hnd, Hw].
          subst st. rewrite entriesOf_middle, filter_app in Hf. cbn [filter] in Hf.
          unfold named at 2 in Hf. cbn [snd] in Hf. rewrite Hn, String.eqb_refl in Hf.
          destruct (filter _ _); discriminate. }
    destruct Hstep as (Hv & H1 & H2 & H3). rewrite Hv.
    destruct (IH _ Hevs' H1 H2 H3) as (st' & Ht & R). rewrite Ht.
    exists st'. split; [reflexivity | exact R].
Qed.

(** After the import of [name]: each access to it is reported and marks
    its info, and nothing else is. *)
Lemma traverse_focused lib evs : forall st r,
  Forall (calm context name declared) evs ->
  filter (named name) (entriesOf st) = [(lib, r)] ->
  othersUnused name st -> within declared st ->
  exists st',
    traverse context st evs
    = (st', map (fun a : MemberExpressionNode * string =>
                   inlineReport (fst a) name (snd a) lib (isTypeImport r))
                (accessesOf name evs))
    /\ filter (named name) (entriesOf st')
       = [(lib, markAll r (map snd (accessesOf name evs)))]
    /\ othersUnused name st' /\ within declared st'.
Proof.
  induction evs as [|ev evs IH]; intros st r Hevs Hf Ho Hw; cbn [traverse].
  - exists st. repeat split; assumption.
  - inversion Hevs as [|? ? Hev Hevs']; subst.
    destruct ev as [n | m]; cbn [visit].
    + assert (Hstep : filter (named name) (entriesOf (ImportDeclaration context st n))
                      = [(lib, r)]
                      /\ othersUnused name (ImportDeclaration context st n)
                      /\ within declared (ImportDeclaration context st n)).
      { unfold ImportDeclaration.
        destruct (importRecord context n) as [q|] eqn:E; [|repeat split; assumption].
        destruct (Hev q E) as [Hn Hd].
        destruct (@importRecord_fields _ _ _ E) as (_ & _ & Hu & _).
        destruct (@map_push_calm st (source n) q Hn Hu Hd Ho Hw) as (H1 & H2 & H3).
        rewrite H1. repeat split; assumption. }
      destruct Hstep as (H1 & H2 & H3).
      destruct (IH _ _ Hevs' H1 H2 H3) as (st' & Ht & R). rewrite Ht.
      exists st'. split; [reflexivity | exact R].
    + unfold MemberExpression, accessesOf. cbn [flat_map accessOf].
      destruct (object m) as [o|] eqn:Eo;
        [|destruct (IH _ _ Hevs' Hf Ho Hw) as (st' & Ht & R); rewrite Ht;
          exists st'; split; [reflexivity | exact R]].
      destruct (property m) as [p|] eqn:Ep;
        [|destruct (IH _ _ Hevs' Hf Ho Hw) as (st' & Ht & R); rewrite Ht;
          exists st'; split; [reflexivity | exact R]].
      destruct (memberLoop_cases m o p st)
        as [[Hmiss E] | (b & lib' & l1 & i & l2 & a & Hst & Hn & E)]; rewrite E.
      * assert (Hne : String.eqb o name = false).
        { apply String.eqb_neq. intros ->. apply Hmiss.
          rewrite recordNames_entriesOf.
          assert (Hin : In (lib, r) (filter (named name) (entriesOf st)))
            by (rewrite Hf; now left).
          apply filter_In in Hin. destruct Hin as [Hin Hnm].
          apply String.eqb_eq in Hnm. cbn [snd] in Hnm. rewrite <- Hnm.
          now apply (in_map (fun kr => localName (snd kr)) _ (lib, r)). }
        rewrite Hne. cbn [app].
        destruct (IH _ _ Hevs' Hf Ho Hw) as (st' & Ht & R). rewrite Ht.
        exists st'. split; [reflexivity | exact R].
      * assert (Hin : In o (recordNames st)).
        { apply recordNames_records. exists i. split; [|assumption].
          subst st. apply records_middle. now left. }
        destruct (Hev o p Eo Ep) as [-> | Hnd];
          [|exfalso; now apply Hnd, Hw].
        rewrite String.eqb_refl. cbn [app map fst snd].
        subst st. rewrite entriesOf_middle in Hf.
        destruct (@filter_singleton _ (named name) _ _ _ _ Hf) as (F1 & Fx & F2).
        { unfold named. cbn [snd]. rewrite Hn. apply String.eqb_refl. }
        injection Fx as -> ->.
        assert (Hstep :
                  filter (named name)
                    (entriesOf (b ++ (lib, l1 ++ markUsed r p :: l2) :: a))
                  = [(lib, markUsed r p)]
                  /\ othersUnused name (b ++ (lib, l1 ++ markUsed r p :: l2) :: a)
                  /\ within declared (b ++ (lib, l1 ++ markUsed r p :: l2) :: a)).
        { unfold othersUnused, within in *. rewrite recordNames_entriesOf in *.
          rewrite entriesOf_middle in *. split; [|split].
          - rewrite filter_app. cbn [filter]. rewrite F1, F2.
            unfold named. cbn [snd markUsed localName]. rewrite Hn.
            now rewrite String.eqb_refl.
          - apply Forall_app in Ho. destruct Ho as [Ho1 Ho2].
            apply Forall_inv_tail in Ho2.
            apply Forall_app. split; [assumption|]. constructor; [|assumption].
            unfold named. cbn [snd markUsed localName]. rewrite Hn.
            rewrite String.eqb_refl. discriminate.
          - intros x Hx. apply Hw. rewrite map_app in Hx |- *.
            cbn [map snd markUsed localName] in Hx |- *. exact Hx. }
        destruct Hstep as (H1 & H2 & H3).
        destruct (IH _ _ Hevs' H1 H2 H3) as (st' & Ht & R1 & R). rewrite Ht.
        exists st'. split; [reflexivity|]. split; [exact R1 | exact R].
Qed.

Lemma ProgramExit_focused lib st r :
  filter (named name) (entriesOf st) = [(lib, r)] ->
  othersUnused name st ->
  ProgramExit st = if isUsedAsNamespace r then [summaryReport lib r] else [].
Proof.
  intros Hf Ho. rewrite ProgramExit_entriesOf. unfold othersUnused in Ho.
  transitivity (flat_map (fun kr : string * ImportInfo =>
                            if isUsedAsNamespace (snd kr)
                            then [summaryReport (fst kr) (snd kr)] else [])
                         (filter (named name) (entriesOf st))).
  - clear Hf. induction (entriesOf st) as [|kr l IH]; [reflexivity|].
    inversion Ho as [|? ? Hkr Hl]; subst. cbn [flat_map filter].
    destruct (named name kr) eqn:E.
    + cbn [flat_map]. now rewrite (IH Hl).
    + rewrite (Hkr eq_refl). cbn [app]. now apply IH.
  - rewrite Hf. cbn [flat_map fst snd]. now rewrite app_nil_r.
Qed.
End Focus.

Lemma accessesOf_In m o p evs :
  In (EMember m) evs -> object m = Identifier o -> property m = Identifier p ->
  In (m, p) (accessesOf o evs).
Proof.
  intros Hin Ho Hp. unfold accessesOf. apply in_flat_map.
  exists (EMember m). split; [assumption|]. cbn [accessOf].
  rewrite Ho, Hp, String.eqb_refl. now left.
Qed.

Lemma accessesOf_app name a b :
  accessesOf name (a ++ b) = accessesOf name a ++ accessesOf name b.
Proof. unfold accessesOf. apply flat_map_app. Qed.

(** The reports of a file in which [d] is the only recorded import whose
    binding is accessed. *)
Lemma lint_focused context pre d post imp :
  importRecord context d = Some imp ->
  (forall n q,
      In (EImport n) (pre ++ post) -> importRecord context n = Some q ->
      localName q <> localName imp
      /\ accessesOf (localName q) (pre ++ post) = []) ->
  lint context (pre ++ EImport d :: post) =
    map (fun a : MemberExpressionNode * string =>
           inlineReport (fst a) (localName imp) (snd a) (source d) (isTypeImport imp))
        (accessesOf (localName imp) post)
    ++ (if isUsedAsNamespace (markAll imp (map snd (accessesOf (localName imp) post)))
        then [summaryReport (source d)
                (markAll imp (map snd (accessesOf (localName imp) post)))]
        else []).
Proof.
  intros Hd Hothers.
  set (name := localName imp).
  set (declared := fun x : string =>
         x = name \/ exists n q, In (EImport n) (pre ++ post)
                                 /\ importRecord context n = Some q
                                 /\ localName q = x).
  assert (Hcalm : forall ev, In ev (pre ++ post) -> calm context name declared ev).
  { intros [n | m] Hin; cbn [calm].
    - intros q Hq. destruct (Hothers n q Hin Hq) as [Hn _].
      split; [assumption|]. right. now exists n, q.
    - intros o p Ho Hp. destruct (String.eqb o name) eqn:E.
      + left. now apply String.eqb_eq.
      + right. apply String.eqb_neq in E. intros [-> | (n & q & Hn & Hq & Hl)];
          [congruence|].
        destruct (Hothers n q Hn Hq) as [_ Hacc]. rewrite Hl in Hacc.
        pose proof (@accessesOf_In _ _ _ _ Hin Ho Hp) as Hmp. rewrite Hacc in Hmp.
        contradiction. }
  assert (Hpre : Forall (calm context name declared) pre).
  { apply Forall_forall. intros ev Hin. apply Hcalm, in_or_app. now left. }
  assert (Hpost : Forall (calm context name declared) post).
  { apply Forall_forall. intros ev Hin. apply Hcalm, in_or_app. now right. }
  destruct (@traverse_unfocused context name declared pre [] Hpre eq_refl)
    as (st0 & Ht0 & Hf0 & Ho0 & Hw0).
  { constructor. }
  { intros x []. }
  destruct (@importRecord_fields _ _ _ Hd) as (_ & _ & Hu & _).
  assert (Hfocus : filter (named name) (entriesOf (map_push st0 (source d) imp))
                   = [(source d, imp)]
                   /\ othersUnused name (map_push st0 (source d) imp)
                   /\ within declared (map_push st0 (source d) imp)).
  { destruct (entriesOf_map_push st0 (source d) imp) as (X & Y & H1 & H2).
    unfold othersUnused, within in *. rewrite recordNames_entriesOf in *.
    rewrite H2. rewrite H1 in Hf0, Ho0, Hw0. rewrite filter_app in Hf0.
    apply app_eq_nil in Hf0. destruct Hf0 as [FX FY].
    apply Forall_app in Ho0. destruct Ho0 as [HX HY]. split; [|split].
    - rewrite filter_app. cbn [filter]. rewrite FX, FY.
      unfold named, name. cbn [snd]. now rewrite String.eqb_refl.
    - apply Forall_app. split; [assumption|]. constructor; [|assumption].
      unfold named, name. cbn [snd]. rewrite String.eqb_refl. discriminate.
    - intros x Hx. rewrite map_app in Hx. cbn [map snd] in Hx.
      rewrite in_app_iff in Hx. cbn [In] in Hx.
      destruct Hx as [Hx | [<- | Hx]]; [| now left |];
        apply Hw0; rewrite map_app, in_app_iff; tauto. }
  destruct Hfocus as (Hf1 & Ho1 & Hw1).
  destruct (@traverse_focused context name declared (source d) post _ _
              Hpost Hf1 Ho1 Hw1) as (st' & Ht & Hf & Ho & _).
  unfold lint. rewrite traverse_app, Ht0. cbn [traverse visit].
  unfold ImportDeclaration. rewrite Hd, Ht. cbn [app].
  now rewrite (@ProgramExit_focused _ _ _ _ Hf Ho).
Qed.

(** C1, as stated, fails.  In the file
    [_.map; import _ from 'lodash'; _.filter; _.chunk; _.each;] the binding
    [_] of the only default import is accessed through four distinct
    property names, but the access that is visited before the import
    declaration meets an empty [defaultImports]: three inline reports are
    produced, and the [properties] datum of the summary is
    ["filter, chunk, each"], without the ellipsis. *)
Lemma C1_access_before_the_import_is_missed :
  accessesOf "_"
    (EMember (access 10 "_" "map") :: EImport importLodash :: tl fourAccesses)
  = [ (access 10 "_" "map", "map"); (access 70 "_" "filter", "filter");
      (access 80 "_" "chunk", "chunk"); (access 90 "_" "each", "each") ]
  /\ lint jsFile
       (EMember (access 10 "_" "map") :: EImport importLodash :: tl fourAccesses)
     = [ {| r_node := (70, 78); messageId := noNamespaceUsage;
            data := [("objectName", "_"); ("propertyName", "filter");
                     ("libraryName", "lodash")];
            fix_ := ReplaceText (70, 78) "filter" |};
         {| r_node := (80, 87); messageId := noNamespaceUsage;
            data := [("objectName", "_"); ("propertyName", "chunk");
                     ("libraryName", "lodash")];
            fix_ := ReplaceText (80, 87) "chunk" |};
         {| r_node := (90, 96); messageId := noNamespaceUsage;
            data := [("objectName", "_"); ("propertyName", "each");
                     ("libraryName", "lodash")];
            fix_ := ReplaceText (90, 96) "each" |};
         {| r_node := (27, 51);
            messageId := noDefaultImportForNamespace;
            data := [("importName", "_"); ("libraryName", "lodash");
                     ("properties", "filter, chunk, each")];
            fix_ := ReplaceText (27, 51)
                      "import { chunk, each, filter } from 'lodash';" |} ].
Proof. split; reflexivity. Qed.

(** C1, amended.  Let [d] be a recorded default import (of a module the
    options do not exempt) that stands before every access to its binding,
    the only import of the file that binds this name, the bindings of the
    other recorded imports being accessed nowhere.  Then
    - every member access [name.p] of the file gets its own inline report,
      anchored at the range of that member expression, with the object,
      property and library names as data and a fix that replaces that
      range by [p], also when a property name occurs again (there is no
      deduplication), and there is no other inline report;
    - when the binding is accessed at four sites with four distinct
      property names [p1], [p2], [p3], [p4], the reports of the file are
      these four inline reports, in visiting order, followed by one summary
      report, anchored at the range of [d], whose [properties] datum is
      ["p1, p2, p3, ..."]. *)
Theorem C1_one_summary_four_inline context pre d post imp :
  importRecord context d = Some imp ->
  (forall n q,
      In (EImport n) (pre ++ post) -> importRecord context n = Some q ->
      localName q <> localName imp
      /\ accessesOf (localName q) (pre ++ post) = []) ->
  accessesOf (localName imp) pre = [] ->
  filter isInline (lint context (pre ++ EImport d :: post))
  = map (fun a : MemberExpressionNode * string =>
           {| r_node := m_range (fst a);
              messageId := if isTypeImport imp
                           then noTypeNamespaceUsage else noNamespaceUsage;
              data := [("objectName", localName imp);
                       ("propertyName", snd a);
                       ("libraryName", source d)];
              fix_ := ReplaceText (m_range (fst a)) (snd a) |})
        (accessesOf (localName imp) (pre ++ EImport d :: post))
  /\ (forall m1 p1 m2 p2 m3 p3 m4 p4,
         accessesOf (localName imp) post = [(m1, p1); (m2, p2); (m3, p3); (m4, p4)] ->
         NoDup [p1; p2; p3; p4] ->
         lint context (pre ++ EImport d :: post) =
           [ {| r_node := m_range m1;
                messageId := if isTypeImport imp
                             then noTypeNamespaceUsage else noNamespaceUsage;
                data := [("objectName", localName imp); ("propertyName", p1);
                         ("libraryName", source d)];
                fix_ := ReplaceText (m_range m1) p1 |};
             {| r_node := m_range m2;
                messageId := if isTypeImport imp
                             then noTypeNamespaceUsage else noNamespaceUsage;
                data := [("objectName", localName imp); ("propertyName", p2);
                         ("libraryName", source d)];
                fix_ := ReplaceText (m_range m2) p2 |};
             {| r_node := m_range m3;
                messageId := if isTypeImport imp
                             then noTypeNamespaceUsage else noNamespaceUsage;
                data := [("objectName", localName imp); ("propertyName", p3);
                         ("libraryName", source d)];
                fix_ := ReplaceText (m_range m3) p3 |};
             {| r_node := m_range m4;
                messageId := if isTypeImport imp
                             then noTypeNamespaceUsage else noNamespaceUsage;
                data := [("objectName", localName imp); ("propertyName", p4);
                         ("libraryName", source d)];
                fix_ := ReplaceText (m_range m4) p4 |};
             {| r_node := i_range d;
                messageId := if isTypeImport imp
                             then noDefaultTypeImportForNamespace
                             else noDefaultImportForNamespace;
                data := [("importName", localName imp);
                         ("libraryName", source d);
                         ("properties", (JS.join ", " [p1; p2; p3] ++ ", ...")%string)];
                fix_ := summaryFix (source d)
                          {| node := d;
                             localName := localName imp;
                             libraryName := source d;
                             isUsedAsNamespace := true;
                             namespacedProperties := [p1; p2; p3; p4];
                             isTypeImport := isTypeImport imp |} |} ]).
Proof.
  intros Hd Hothers Hnone. rewrite (@lint_focused _ _ _ _ _ Hd Hothers). split.
  - rewrite accessesOf_app, Hnone. cbn [app accessesOf flat_map accessOf].
    fold (accessesOf (localName imp) post).
    change (fun a : MemberExpressionNode * string =>
              {| r_node := m_range (fst a);
                 messageId := if isTypeImport imp
                              then noTypeNamespaceUsage else noNamespaceUsage;
                 data := [("objectName", localName imp);
                          ("propertyName", snd a);
                          ("libraryName", source d)];
                 fix_ := ReplaceText (m_range (fst a)) (snd a) |})
      with (fun a : MemberExpressionNode * string =>
              inlineReport (fst a) (localName imp) (snd a) (source d)
                           (isTypeImport imp)).
    rewrite filter_app, isInline_map_inline.
    destruct (isUsedAsNamespace _); [|apply app_nil_r].
    cbn [filter]. rewrite isInline_summary. apply app_nil_r.
  - intros m1 p1 m2 p2 m3 p3 m4 p4 Hacc Hnd. rewrite Hacc.
    destruct (@importRecord_fields _ _ _ Hd) as (Hn & Hl & Hu & Hp & _ & _).
    cbn [map fst snd app]. rewrite markAll_cons. cbn [isUsedAsNamespace].
    rewrite Hn, Hl, Hp.
    replace (fold_left JS.set_add [p1; p2; p3; p4] []) with [p1; p2; p3; p4]
      by (symmetry; now apply (@fold_set_add_fresh [p1; p2; p3; p4] [])).
    reflexivity.
Qed.

(** [import React from 'react'; import _ from 'lodash';] followed by [_.map],
    [_.filter], [_.chunk] and [_.each]: the binding [React] is not accessed. *)
Lemma C1_one_summary_four_inline_witness :
  importRecord jsFile importLodash <> None
  /\ lint jsFile ([EImport importReact] ++ EImport importLodash :: fourAccesses) =
     [ {| r_node := (60, 65); messageId := noNamespaceUsage;
          data := [("objectName", "_"); ("propertyName", "map");
                   ("libraryName", "lodash")];
          fix_ := ReplaceText (60, 65) "map" |};
       {| r_node := (70, 78); messageId := noNamespaceUsage;
          data := [("objectName", "_"); ("propertyName", "filter");
                   ("libraryName", "lodash")];
          fix_ := ReplaceText (70, 78) "filter" |};
       {| r_node := (80, 87); messageId := noNamespaceUsage;
          data := [("objectName", "_"); ("propertyName", "chunk");
                   ("libraryName", "lodash")];
          fix_ := ReplaceText (80, 87) "chunk" |};
       {| r_node := (90, 96); messageId := noNamespaceUsage;
          data := [("objectName", "_"); ("propertyName", "each");
                   ("libraryName", "lodash")];
          fix_ := ReplaceText (90, 96) "each" |};
       {| r_node := (27, 51);
          messageId := noDefaultImportForNamespace;
          data := [("importName", "_"); ("libraryName", "lodash");
                   ("properties", "map, filter, chunk, ...")];
          fix_ := ReplaceText (27, 51)
                    "import { chunk, each, filter, map } from 'lodash';" |} ].
Proof.
  split; [discriminate|].
  refine (proj2 (@C1_one_summary_four_inline jsFile [EImport importReact]
                   importLodash fourAccesses
                   {| node := importLodash; localName := "_"; libraryName := "lodash";
                      isUsedAsNamespace := false; namespacedProperties := [];
                      isTypeImport := false |}
                   eq_refl _ eq_refl)
                (access 60 "_" "map") "map" (access 70 "_" "filter") "filter"
                (access 80 "_" "chunk") "chunk" (access 90 "_" "each") "each"
                eq_refl _).
  - intros n q [H | H] Hq.
    + injection H as <-. injection Hq as <-. split; [discriminate | reflexivity].
    + simpl in H. repeat (destruct H as [H | H]; [discriminate|]). contradiction.
  - repeat constructor; simpl; intuition discriminate.
Defined.

End NoNamespaceImport.

(** ** Node's [path] module, POSIX flavour

    [path] is a library of the host; the rule calls [resolve], [join],
    [dirname] and [relative] and reads [sep].  The definitions follow the
    behaviour of [path.posix]: paths are strings, cut into segments at
    every ["/"]. *)

Module NodePath.

Definition sep : ascii := "/"%char.

Definition isAbsolute (p : string) : bool :=
  match p with
  | String c _ => Ascii.eqb c sep
  | EmptyString => false
  end.

(** [normalizeString]: empty and ["."] segments disappear, [".."] removes
    the segment before it; above the start of a relative path [".."] is
    kept ([allowAboveRoot]), above the root it is dropped.  [acc] holds
    the segments kept so far, last one first. *)
Fixpoint normalizeSegments (allowAboveRoot : bool) (acc segs : list string)
  : list string :=
  match segs with
  | [] => rev acc
  | s :: rest =>
      if String.eqb s "" || String.eqb s "." then
        normalizeSegments allowAboveRoot acc rest
      else if String.eqb s ".." then
        match acc with
        | [] =>
            normalizeSegments allowAboveRoot
                              (if allowAboveRoot then [".."] else []) rest
        | top :: acc' =>
            if String.eqb top ".." then
              normalizeSegments allowAboveRoot
                                (if allowAboveRoot then ".." :: acc else acc) rest
            else normalizeSegments allowAboveRoot acc' rest
        end
      else normalizeSegments allowAboveRoot (s :: acc) rest
  end.

Definition normalizeString (p : string) (allowAboveRoot : bool) : string :=
  JS.join "/" (normalizeSegments allowAboveRoot [] (JS.split sep p)).

(** [path.normalize] *)
Definition normalize (p : string) : string :=
  match p with
  | EmptyString => "."
  | _ =>
      let absolute := isAbsolute p in
      let trailing := JS.endsWith p "/" in
      let body := normalizeString p (negb absolute) in
      match body with
      | EmptyString =>
          if absolute then "/" else if trailing then "./" else "."
      | _ =>
          ((if absolute then "/" else "") ++ body
           ++ (if trailing then "/" else ""))%string
      end
  end.

(** [path.join(...args)] *)
Definition join (args : list string) : string :=
  match filter (fun a => negb (String.eqb a "")) args with
  | [] => "."
  | parts => normalize (JS.join "/" parts)
  end.

(** The loop of [path.resolve], from the last argument to the first and
    then the working directory, until an absolute path is met. *)
Fixpoint resolveLoop (args : list string) (resolvedPath : string)
  : string * bool :=
  match args with
  | [] => (resolvedPath, false)
  | p :: rest =>
      if String.eqb p "" then resolveLoop rest resolvedPath
      else
        let resolvedPath' := (p ++ "/" ++ resolvedPath)%string in
        if isAbsolute p then (resolvedPath', true)
        else resolveLoop rest resolvedPath'
  end.

(** [path.resolve(...args)], with [process.cwd()] as [cwd]. *)
Definition resolve (cwd : string) (args : list string) : string :=
  let (resolvedPath, absolute) := resolveLoop (rev args ++ [cwd]) "" in
  let body := normalizeString resolvedPath (negb absolute) in
  if absolute then ("/" ++ body)%string
  else match body with EmptyString => "." | _ => body end.

(** [path.dirname]: the path without its last segment; trailing
    separators do not count. *)
Fixpoint dropWhile (p : ascii -> bool) (l : list ascii) : list ascii :=
  match l with
  | [] => []
  | c :: rest => if p c then dropWhile p rest else l
  end.

Definition dirname (p : string) : string :=
  match list_ascii_of_string p with
  | [] => "."
  | first :: others =>
      let hasRoot := Ascii.eqb first sep in
      let back := dropWhile (fun c => negb (Ascii.eqb c sep))
                            (dropWhile (fun c => Ascii.eqb c sep) (rev others)) in
      match back with
      | [] => if hasRoot then "/" else "."
      | _ :: before =>
          match before with
          | [] => if hasRoot then "//"
                  else string_of_list_ascii [first]
          | _ => string_of_list_ascii (first :: rev before)
          end
      end
  end.

(** The segments of a resolved path. *)
Definition segments (p : string) : list string :=
  filter (fun s => negb (String.eqb s "")) (JS.split sep p).

Fixpoint stripCommon (a b : list string) : list string * list string :=
  match a, b with
  | x :: a', y :: b' => if String.eqb x y then stripCommon a' b' else (a, b)
  | _, _ => (a, b)
  end.

(** [path.relative(from, to)]: both paths are resolved; one [".."] for
    every segment of [from] below the common ancestor, then the segments
    of [to] below it. *)
Definition relative (cwd from to : string) : string :=
  if String.eqb from to then ""
  else
    let from' := resolve cwd [from] in
    let to' := resolve cwd [to] in
    if String.eqb from' to' then ""
    else
      let (up, down) := stripCommon (segments from') (segments to') in
      JS.join "/" (map (fun _ => "..") up ++ down).

End NodePath.

(** ** Rule [enforce-path-alias] *)

Module EnforcePathAlias.
Import ESTree.

(** *** Project files *)

(** A JavaScript object with string keys, as [Object.entries] and
    [Object.assign] see it: the keys in the order of their first
    assignment.  (Keys that look like array indices would come first;
    alias names are not of that kind.) *)
Definition PathMappings : Type := list (string * list string).

Fixpoint obj_get (o : PathMappings) (k : string) : option (list string) :=
  match o with
  | [] => None
  | (k', v) :: rest => if String.eqb k' k then Some v else obj_get rest k
  end.

(** [o[k] = v] *)
Fixpoint obj_set (o : PathMappings) (k : string) (v : list string) : PathMappings :=
  match o with
  | [] => [(k, v)]
  | (k', v') :: rest =>
      if String.eqb k' k then (k', v) :: rest else (k', v') :: obj_set rest k v
  end.

(** [Object.assign(target, source)] *)
Definition obj_assign (target source : PathMappings) : PathMappings :=
  fold_left (fun o kv => obj_set o (fst kv) (snd kv)) source target.

Record CompilerOptions : Type := {
  baseUrl : option string;
  paths : option PathMappings
}.

Record Reference : Type := { ref_path : string }.

(** What [JSON.parse] returns for a project config file. *)
Record TsConfig : Type := {
  compilerOptions : option CompilerOptions;
  references : option (list Reference)
}.

(** A file has a text and, when the text is a project config in JSON,
    its reading by [JSON.parse] ([None]: [JSON.parse] throws). *)
Inductive FsEntry : Type :=
| File (text : string) (json : option TsConfig)
| Directory (names : list string).

Definition FileSystem : Type := string -> option FsEntry.

(** The calls into [fs], recorded in the order in which they are made. *)
Inductive FsCall : Type :=
| existsSync (p : string)
| statSync (p : string)
| readFileSync (p : string)
| readdirSync (p : string).

(** A computation that reads the file system: its value and the calls
    it made. *)
Definition IO (A : Type) : Type := (A * list FsCall)%type.

Definition ret {A : Type} (a : A) : IO A := (a, []).

Definition bind {A B : Type} (m : IO A) (f : A -> IO B) : IO B :=
  let (a, l1) := m in
  let (b, l2) := f a in
  (b, l1 ++ l2).

Declare Scope io_scope.
Delimit Scope io_scope with io.
Notation "x <- m ;; k" := (bind m (fun x => k))
  (at level 61, m at next level, right associativity) : io_scope.
Local Open Scope io_scope.

Record Options : Type := {
  mode : option string;
  configFile : option string;
  opt_paths : option PathMappings;        (* options.paths *)
  opt_baseUrl : option string;            (* options.baseUrl *)
  fallbackBaseUrl : option string;
  exclude : option (list string);
  supportedExtensions : option (list string);
  includeDeclarationFiles : option bool
}.

Record Context : Type := {
  options : Options;
  getFilename : string;
  getCwd : string;
  fs : FileSystem
}.

Record AliasPattern : Type := {
  alias : string;
  targetPath : string
}.

Inductive LiteralValue : Type :=
| StringValue (s : string)
| OtherValue.

Record Literal : Type := {
  l_range : Range;
  value : LiteralValue;
  raw : string
}.

(** An import declaration: its [source] is a string literal. *)
Record ImportDeclarationNode : Type := {
  source_range : Range;
  source_value : string;
  source_raw : string
}.

Inductive Argument : Type :=
| LiteralArg (l : Literal)
| OtherArg.

(** A call expression: the name of the callee when it is an identifier,
    and the arguments. *)
Record CallExpressionNode : Type := {
  callee_name : option string;
  arguments : list Argument
}.

Record Report : Type := {
  r_node : Range;
  message : string;
  fix_ : Fix
}.

(** What linting comes to: the reports, or the error that ends it, the
    [TypeError] that leaves a visitor callback or the [SyntaxError] that
    leaves [create]. *)
Inductive Outcome : Type :=
| Reports (rs : list Report)
| TypeError
| SyntaxError.

(** [s.replace(pat, by)] with a string pattern: the first occurrence. *)
Fixpoint replaceFirst (pat rep s : string) : string :=
  if String.prefix pat s then
    (rep ++ substring (String.length pat) (String.length s - String.length pat) s)%string
  else
    match s with
    | EmptyString => EmptyString
    | String c s' => String c (replaceFirst pat rep s')
    end.

(** [s.replace(/\\/g, "/")] *)
Fixpoint slashes (s : string) : string :=
  match s with
  | EmptyString => EmptyString
  | String c s' =>
      String (if Ascii.eqb c "\"%char then "/"%char else c) (slashes s')
  end.

(** What the callbacks close over once [create] has read the project. *)
Record Visitor : Type := {
  finalBaseUrl : string;
  aliasPatterns : list AliasPattern
}.

(** What [create] comes to: the visitor object, [None] standing for the
    empty object [{}], unless [new RegExp] throws its [SyntaxError]. *)
Inductive Created : Type :=
| Callbacks (v : option Visitor)
| InvalidRegExp.

Inductive Event : Type :=
| EImport (n : ImportDeclarationNode)
| ECall (n : CallExpressionNode).

(** The source of the pattern [createAliasPatterns] compiles for an alias:
    [`^${aliasPattern.replace("*", ".*")}`]. *)
Definition aliasRegexSource (aliasPattern : string) : string :=
  ("^" ++ replaceFirst "*" ".*" aliasPattern)%string.

Section Rule.
(** The scan of a bundler config: for each of the two [alias] block
    patterns that match the text, in order, the [aliases] object the
    three entry patterns fill from the block.  The regular-expression
    engine is the host's. *)
Variable scanViteConfig : string -> list PathMappings.
(** [new RegExp(source)] either returns or throws a [SyntaxError]:
    [regExpCompiles source] says whether it returns.  Which sources are
    patterns is the matter of the host's engine too. *)
Variable regExpCompiles : string -> bool.
Variable context : Context.

Definition mode_ : string := JS.or_string (mode (options context)) "direct-children".
Definition configFile_ : string :=
  JS.or_string (configFile (options context)) "tsconfig.json".
Definition manualPaths : option PathMappings := opt_paths (options context).
Definition userBaseUrl : option string := opt_baseUrl (options context).
Definition fallbackBaseUrl_ : string :=
  JS.or_string (fallbackBaseUrl (options context)) "./src".
Definition excludeFolders : list string :=
  match exclude (options context) with Some l => l | None => [] end.
Definition supportedExtensions_ : list string :=
  match supportedExtensions (options context) with
  | Some l => l
  | None => [".js"; ".jsx"; ".ts"; ".tsx"; ".vue"; ".svelte"]
  end.
Definition includeDeclarationFiles_ : bool :=
  JS.or_false (includeDeclarationFiles (options context)).

Definition filename : string := getFilename context.
Definition isTypeScript : bool := JS.isTypeScriptFile filename.
Definition isDeclarationFile : bool := JS.endsWith filename ".d.ts".

(** **** Reading the file system *)

Definition fs_existsSync (p : string) : IO bool :=
  (match fs context p with Some _ => true | None => false end, [existsSync p]).

(** [fs.statSync(p).isDirectory()] and [fs.statSync(p).isFile()], both
    called on existing paths only. *)
Definition fs_isDirectory (p : string) : IO bool :=
  (match fs context p with Some (Directory _) => true | _ => false end,
   [statSync p]).

Definition fs_isFile (p : string) : IO bool :=
  (match fs context p with Some (File _ _) => true | _ => false end,
   [statSync p]).

Definition fs_readdirSync (p : string) : IO (list string) :=
  (match fs context p with Some (Directory names) => names | _ => [] end,
   [readdirSync p]).

(** [fs.readFileSync(p, "utf8")]; [None] when it throws. *)
Definition fs_readFileSync (p : string) : IO (option string) :=
  (match fs context p with Some (File text _) => Some text | _ => None end,
   [readFileSync p]).

(** [JSON.parse(fs.readFileSync(p, "utf8"))]; [None] when either throws. *)
Definition readJSON (p : string) : IO (option TsConfig) :=
  (match fs context p with Some (File _ json) => json | _ => None end,
   [readFileSync p]).

(** [tsconfig.compilerOptions?.baseUrl], when truthy. *)
Definition configBaseUrl (t : TsConfig) : option string :=
  match compilerOptions t with
  | Some co =>
      match baseUrl co with
      | Some EmptyString | None => None
      | Some b => Some b
      end
  | None => None
  end.

(** [tsconfig.compilerOptions?.paths] *)
Definition configPaths (t : TsConfig) : option PathMappings :=
  match compilerOptions t with
  | Some co => paths co
  | None => None
  end.

(** **** [detectBaseUrl] *)

Definition hasSourceFiles (files : list string) : bool :=
  existsb (fun file =>
             existsb (fun ext => JS.endsWith file ext) supportedExtensions_
             && negb (JS.startsWith file "."))
          files.

Fixpoint probeCommonDirs (dirs : list string) : IO string :=
  match dirs with
  | [] => ret fallbackBaseUrl_
  | dir :: rest =>
      let dirPath :=
        NodePath.join [getCwd context; if String.eqb dir "." then "" else dir] in
      e <- fs_existsSync dirPath ;;
      d <- (if e then fs_isDirectory dirPath else ret false) ;;
      if d then
        files <- fs_readdirSync dirPath ;;
        if hasSourceFiles files || String.eqb dir "src" || String.eqb dir "app"
        then ret (if String.eqb dir "." then "./" else ("./" ++ dir)%string)
        else probeCommonDirs rest
      else probeCommonDirs rest
  end.

Definition detectBaseUrl : IO string :=
  match userBaseUrl with
  | Some (String c r) => ret (String c r)
  | _ =>
      let tsconfigPath := NodePath.join [getCwd context; configFile_] in
      e <- fs_existsSync tsconfigPath ;;
      fromConfig <- (if e then
                       t <- readJSON tsconfigPath ;;
                       ret (match t with
                            | Some t => configBaseUrl t
                            | None => None
                            end)
                     else ret None) ;;
      match fromConfig with
      | Some b => ret b
      | None =>
          probeCommonDirs (if isTypeScript
                           then ["src"; "lib"; "app"; "."]
                           else ["src"; "app"; "lib"; "."])
      end
  end.

(** **** [resolveProjectReferences] *)

(** The loop over [tsconfig.references]; an error while reading or
    parsing the config of a reference is caught inside the loop. *)
Fixpoint mergeReferences (projectRoot : string) (refs : list Reference)
         (allPaths : PathMappings) : IO PathMappings :=
  match refs with
  | [] => ret allPaths
  | ref :: rest =>
      let refPath := NodePath.resolve (getCwd context) [projectRoot; ref_path ref] in
      e <- fs_existsSync refPath ;;
      f <- (if e then fs_isFile refPath else ret false) ;;
      let refTsconfigPath :=
        if f then refPath else NodePath.join [refPath; "tsconfig.json"] in
      e' <- fs_existsSync refTsconfigPath ;;
      if e' then
        t <- readJSON refTsconfigPath ;;
        mergeReferences projectRoot rest
          (match t with
           | Some refTsconfig =>
               match configPaths refTsconfig with
               | Some p => obj_assign allPaths p
               | None => allPaths
               end
           | None => allPaths
           end)
      else mergeReferences projectRoot rest allPaths
  end.

Definition resolveProjectReferences (tsconfigPath : string) : IO PathMappings :=
  t <- readJSON tsconfigPath ;;
  match t with
  | None => ret []
  | Some tsconfig =>
      let projectRoot := NodePath.dirname tsconfigPath in
      match references tsconfig with
      | Some refs =>
          mergeReferences projectRoot refs
            (match configPaths tsconfig with
             | Some p => obj_assign [] p
             | None => []
             end)
      | None =>
          ret (match configPaths tsconfig with Some p => p | None => [] end)
      end
  end.

(** **** [getPathMappings] *)

Definition nonEmpty (o : PathMappings) : bool :=
  match o with [] => false | _ => true end.

Fixpoint viteLoop (candidates : list string) : IO PathMappings :=
  match candidates with
  | [] => ret []
  | viteConfigPath :: rest =>
      e <- fs_existsSync viteConfigPath ;;
      if e then
        t <- fs_readFileSync viteConfigPath ;;
        match t with
        | Some viteConfig =>
            match find nonEmpty (scanViteConfig viteConfig) with
            | Some aliases => ret aliases
            | None => viteLoop rest
            end
        | None => viteLoop rest
        end
      else viteLoop rest
  end.

Definition getPathMappings : IO PathMappings :=
  match manualPaths with
  | Some p => ret p
  | None =>
      let projectRoot := getCwd context in
      let tsconfigPath := NodePath.join [projectRoot; configFile_] in
      e <- fs_existsSync tsconfigPath ;;
      fromConfig <- (if e then resolveProjectReferences tsconfigPath else ret []) ;;
      if nonEmpty fromConfig then ret fromConfig
      else viteLoop [NodePath.join [projectRoot; "vite.config.js"];
                     NodePath.join [projectRoot; "vite.config.ts"];
                     NodePath.join [projectRoot; "vite.config.mjs"];
                     NodePath.join [projectRoot; "vite.config.mts"]]
  end.

(** **** [createAliasPatterns]

    The loop over [Object.entries(pathMappings)].  The [aliasRegex] field
    of a pattern is never read and is not kept, but [new RegExp] is called
    for every entry: the first alias whose pattern does not compile makes
    the function, and [create] with it, throw ([None]). *)
Fixpoint createAliasPatterns (base : string) (pathMappings : PathMappings)
  : option (list AliasPattern) :=
  match pathMappings with
  | [] => Some []
  | (al, tgts) :: rest =>
      let aliasPattern := replaceFirst "/*" "" al in
      let targetPath :=
        match tgts with
        | t :: _ => replaceFirst "/*" "" t
        | [] => ""
        end in
      if regExpCompiles (aliasRegexSource aliasPattern) then
        match createAliasPatterns base rest with
        | Some patterns =>
            Some ({| alias := aliasPattern;
                     targetPath :=
                       NodePath.resolve (getCwd context)
                         [getCwd context; base; targetPath] |} :: patterns)
        | None => None
        end
      else None
  end.

(** **** The callbacks *)

Section Callbacks.
Variable v : Visitor.

Definition isDirectChildOfSrc (filePath : string) : bool :=
  let srcPath := NodePath.resolve (getCwd context) [getCwd context; finalBaseUrl v] in
  let relativePath := NodePath.relative (getCwd context) srcPath filePath in
  let pathParts := JS.split NodePath.sep relativePath in
  (List.length pathParts =? 2) && negb (JS.startsWith relativePath "..").

Definition shouldUseAlias (importPath currentFilePath : string) : bool :=
  if negb (JS.startsWith importPath "../") && negb (JS.startsWith importPath "./")
  then false
  else
    let resolvedImportPath :=
      NodePath.resolve (getCwd context)
                       [NodePath.dirname currentFilePath; importPath] in
    let relativeToCwd :=
      NodePath.relative (getCwd context) (getCwd context) resolvedImportPath in
    if existsb (fun excludeFolder => JS.startsWith relativeToCwd excludeFolder)
               excludeFolders
    then false
    else if String.eqb mode_ "direct-children"
         then isDirectChildOfSrc resolvedImportPath
         else
           let srcPath :=
             NodePath.resolve (getCwd context) [getCwd context; finalBaseUrl v] in
           JS.startsWith resolvedImportPath srcPath.

Fixpoint findMatchingAliasLoop (resolvedImportPath : string)
         (patterns : list AliasPattern) : option string :=
  match patterns with
  | [] => None
  | pattern :: rest =>
      if JS.startsWith resolvedImportPath (targetPath pattern) then
        let relativePath :=
          NodePath.relative (getCwd context) (targetPath pattern)
                            resolvedImportPath in
        Some (slashes (alias pattern ++ "/" ++ relativePath)%string)
      else findMatchingAliasLoop resolvedImportPath rest
  end.

Definition findMatchingAlias (importPath currentFilePath : string)
           (patterns : list AliasPattern) : option string :=
  findMatchingAliasLoop
    (NodePath.resolve (getCwd context)
                      [NodePath.dirname currentFilePath; importPath])
    patterns.

(** The shared body of the two callbacks, for a string path held by
    the literal at [target]; [kind] is ["import"] or ["require"]. *)
Definition checkPath (kind : string) (target : Range) (importPath : string)
  : list Report :=
  let currentFilePath := getFilename context in
  if shouldUseAlias importPath currentFilePath then
    match findMatchingAlias importPath currentFilePath (aliasPatterns v) with
    | Some (String c r) =>
        let suggestedAlias := String c r in
        [ {| r_node := target;
             message := ("Use path alias '" ++ suggestedAlias
                         ++ "' instead of relative " ++ kind ++ " '"
                         ++ importPath ++ "'")%string;
             fix_ := ReplaceText target ("'" ++ suggestedAlias ++ "'")%string |} ]
    | _ => []
    end
  else [].

Definition ImportDeclaration (n : ImportDeclarationNode) : list Report :=
  checkPath "import" (source_range n) (source_value n).

Definition CallExpression (n : CallExpressionNode) : Outcome :=
  match callee_name n, arguments n with
  | Some name, [LiteralArg l] =>
      if String.eqb name "require" then
        match value l with
        | StringValue importPath =>
            Reports (checkPath "require" (l_range l) importPath)
        | OtherValue => TypeError
        end
      else Reports []
  | _, _ => Reports []
  end.

Fixpoint visitAll (evs : list Event) : Outcome :=
  match evs with
  | [] => Reports []
  | ev :: rest =>
      match (match ev with
             | EImport n => Reports (ImportDeclaration n)
             | ECall n => CallExpression n
             end) with
      | Reports r1 =>
          match visitAll rest with
          | Reports r2 => Reports (r1 ++ r2)
          | thrown => thrown
          end
      | thrown => thrown
      end
  end.
End Callbacks.

(** **** [create] *)

Definition create : IO Created :=
  if isDeclarationFile && negb includeDeclarationFiles_ then ret (Callbacks None)
  else
    match find (fun ext => JS.endsWith filename ext) supportedExtensions_ with
    | None | Some EmptyString => ret (Callbacks None)
    | Some _ =>
        base <- detectBaseUrl ;;
        pathMappings <- getPathMappings ;;
        ret (match createAliasPatterns base pathMappings with
             | Some patterns =>
                 Callbacks (Some {| finalBaseUrl := base;
                                    aliasPatterns := patterns |})
             | None => InvalidRegExp
             end)
    end.

(** The reports of one file: an empty visitor object has no callback, and
    no callback runs when [create] throws. *)
Definition lint (evs : list Event) : Outcome :=
  match fst create with
  | Callbacks None => Reports []
  | Callbacks (Some v) => visitAll v evs
  | InvalidRegExp => SyntaxError
  end.

End Rule.

(** *** Vocabulary for the statements and sample projects *)

(** A well-formed object has each key once. *)
Definition wf_object (o : PathMappings) : Prop := NoDup (map fst o).

(** The config file a reference stands for, and the path mappings it
    contributes: [None] when the file is missing, cannot be read,
    cannot be parsed, or declares no [paths]. *)
Definition referenceConfigPath (context : Context) (projectRoot : string)
           (ref : Reference) : string :=
  let refPath := NodePath.resolve (getCwd context) [projectRoot; ref_path ref] in
  match fs context refPath with
  | Some (File _ _) => refPath
  | _ => NodePath.join [refPath; "tsconfig.json"]
  end.

Definition referencePaths (context : Context) (projectRoot : string)
           (ref : Reference) : option PathMappings :=
  match fs context (referenceConfigPath context projectRoot ref) with
  | Some (File _ (Some t)) => configPaths t
  | _ => None
  end.

(** The property a report of the rule has: it sits on the literal at
    [target], and its fix replaces the whole literal, quotes included, by
    the alias string between single quotes. *)
Definition aliasFix (context : Context) (v : Visitor) (target : Range)
           (importPath : string) (r : Report) : Prop :=
  let resolved :=
    NodePath.resolve (getCwd context)
                     [NodePath.dirname (getFilename context); importPath] in
  exists pattern suggestedAlias,
    In pattern (aliasPatterns v)
    /\ JS.startsWith resolved (targetPath pattern) = true
    /\ suggestedAlias =
         slashes (alias pattern ++ "/"
                  ++ NodePath.relative (getCwd context) (targetPath pattern) resolved)%string
    /\ r_node r = target
    /\ fix_ r = ReplaceText target ("'" ++ suggestedAlias ++ "'")%string
    /\ forall before lit after,
         fst target = String.length before ->
         snd target = String.length before + String.length lit ->
         applyFix (before ++ lit ++ after)%string (fix_ r)
         = (before ++ "'" ++ suggestedAlias ++ "'" ++ after)%string.

Definition dq : string := String "034"%char EmptyString.

Definition emptyFs : FileSystem := fun _ => None.

Definition noScan : string -> list PathMappings := fun _ => [].

(** The syntax characters of the pattern grammar. *)
Definition isSyntaxCharacter (c : ascii) : bool :=
  existsb (Ascii.eqb c)
          ["^"; "$"; "\"; "."; "*"; "+"; "?"; "("; ")"; "["; "]"; "{"; "}"; "|"]%char.

Fixpoint hasSyntaxCharacter (s : string) : bool :=
  match s with
  | EmptyString => false
  | String c r => isSyntaxCharacter c || hasSyntaxCharacter r
  end.

(** A source made of [^] and of characters that are no syntax characters
    is a pattern for every engine.  The sample runs, whose aliases are of
    that kind or, like [c++], are refused by every engine, use this
    verdict. *)
Definition plainPattern (source : string) : bool :=
  match source with
  | String "^" rest => negb (hasSyntaxCharacter rest)
  | _ => false
  end.

Definition manualOptions (pm : PathMappings) : Options :=
  {| mode := Some "direct-children"; configFile := None;
     opt_paths := Some pm; opt_baseUrl := Some "./src";
     fallbackBaseUrl := None; exclude := None;
     supportedExtensions := None; includeDeclarationFiles := None |}.

(** [src/components/Button.tsx] in the project at [/proj]. *)
Definition buttonFile (pm : PathMappings) : Context :=
  {| options := manualOptions pm;
     getFilename := "/proj/src/components/Button.tsx";
     getCwd := "/proj";
     fs := emptyFs |}.

(** [import { helpers } from "../utils/helpers";] *)
Definition helpersSource : string :=
  ("import { helpers } from " ++ dq ++ "../utils/helpers" ++ dq ++ ";")%string.

Definition importHelpers : ImportDeclarationNode :=
  {| source_range := (24, 42);
     source_value := "../utils/helpers";
     source_raw := (dq ++ "../utils/helpers" ++ dq)%string |}.

Definition importDeepHelpers : ImportDeclarationNode :=
  {| source_range := (24, 47);
     source_value := "../utils/deep/helpers";
     source_raw := (dq ++ "../utils/deep/helpers" ++ dq)%string |}.

Definition defaultOptions : Options :=
  {| mode := None; configFile := None; opt_paths := None; opt_baseUrl := None;
     fallbackBaseUrl := None; exclude := None;
     supportedExtensions := None; includeDeclarationFiles := None |}.

Definition declarationFile : Context :=
  {| options := defaultOptions;
     getFilename := "/proj/src/types.d.ts";
     getCwd := "/proj";
     fs := emptyFs |}.

Definition markdownFile : Context :=
  {| options := defaultOptions;
     getFilename := "/proj/README.md";
     getCwd := "/proj";
     fs := emptyFs |}.

(** A project with two references: the config of the first cannot be
    parsed, the second one maps ["@/*"] again. *)
Definition parentConfig : TsConfig :=
  {| compilerOptions :=
       Some {| baseUrl := None;
               paths := Some [("@/*", ["./src/*"]); ("@app/*", ["./app/*"])] |};
     references := Some [ {| ref_path := "./packages/broken" |};
                          {| ref_path := "./packages/ui" |} ] |}.

Definition uiConfig : TsConfig :=
  {| compilerOptions :=
       Some {| baseUrl := None;
               paths := Some [("@/*", ["./lib/*"]); ("@ui/*", ["./ui/*"])] |};
     references := None |}.

Definition monorepoFs : FileSystem :=
  fun p =>
    if String.eqb p "/proj/tsconfig.json" then Some (File "{ parent }" (Some parentConfig))
    else if String.eqb p "/proj/packages/ui" then Some (Directory ["tsconfig.json"])
    else if String.eqb p "/proj/packages/ui/tsconfig.json"
         then Some (File "{ ui }" (Some uiConfig))
    else if String.eqb p "/proj/packages/broken" then Some (Directory ["tsconfig.json"])
    else if String.eqb p "/proj/packages/broken/tsconfig.json"
         then Some (File "{ broken" None)
    else None.

Definition monorepo : Context :=
  {| options := defaultOptions;
     getFilename := "/proj/src/index.ts";
     getCwd := "/proj";
     fs := monorepoFs |}.

(** One turn of the loop over the references. *)
Definition mergeOne (context : Context) (projectRoot : string)
           (allPaths : PathMappings) (ref : Reference) : PathMappings :=
  match referencePaths context projectRoot ref with
  | Some p => obj_assign allPaths p
  | None => allPaths
  end.

(** [tsconfig.compilerOptions?.paths || {}] *)
Definition parentPaths (t : TsConfig) : PathMappings :=
  match configPaths t with Some p => p | None => [] end.

(** A string without separator. *)
Fixpoint noSep (s : string) : Prop :=
  match s with
  | EmptyString => True
  | String c r => c <> "/"%char /\ noSep r
  end.

(** A segment of a resolved path. *)
Definition cleanSegment (s : string) : Prop :=
  s <> "" /\ s <> "." /\ s <> ".." /\ noSep s.

(** The resolved path with the segments [segs]. *)
Definition render (segs : list string) : string :=
  String "/" (JS.join "/" segs).

(** *** Text edits *)

Lemma substring_0_0 s : substring 0 0 s = "".
Proof. now destruct s. Qed.

Lemma substring_prefix a : forall b,
  substring 0 (String.length a) (a ++ b) = a.
Proof.
  induction a as [|c a IH]; intros b; simpl.
  - apply substring_0_0.
  - now rewrite IH.
Qed.

Lemma substring_skip a : forall n m b,
  substring (String.length a + n) m (a ++ b) = substring n m b.
Proof. induction a as [|c a IH]; intros n m b; simpl; [reflexivity | apply IH]. Qed.

Lemma substring_all s : substring 0 (String.length s) s = s.
Proof. induction s as [|c s IH]; simpl; [reflexivity | now rewrite IH]. Qed.

Lemma length_app a : forall b,
  String.length (a ++ b) = String.length a + String.length b.
Proof. induction a as [|c a IH]; intros b; simpl; [reflexivity | now rewrite IH]. Qed.

Lemma append_assoc a : forall b c, ((a ++ b) ++ c = a ++ (b ++ c))%string.
Proof. induction a as [|x a IH]; intros b c; simpl; [reflexivity | now rewrite IH]. Qed.

Lemma splice_middle before lit after text :
  JS.splice (before ++ lit ++ after) (String.length before)
            (String.length before + String.length lit) text
  = (before ++ text ++ after)%string.
Proof.
  unfold JS.splice. rewrite substring_prefix. do 2 f_equal.
  rewrite substring_skip.
  replace (String.length lit) with (String.length lit + 0) at 1 by lia.
  rewrite substring_skip, !length_app.
  replace (String.length before + (String.length lit + String.length after)
           - (String.length before + String.length lit))
    with (String.length after) by lia.
  apply substring_all.
Qed.

(** *** The callbacks *)

Section Facts.
Variable context : Context.
Variable v : Visitor.

Lemma findMatchingAliasLoop_spec resolved patterns a :
  findMatchingAliasLoop context resolved patterns = Some a ->
  exists pattern,
    In pattern patterns
    /\ JS.startsWith resolved (targetPath pattern) = true
    /\ a = slashes (alias pattern ++ "/"
                    ++ NodePath.relative (getCwd context) (targetPath pattern)
                                         resolved)%string.
Proof.
  induction patterns as [|p ps IH]; simpl; [discriminate|].
  destruct (JS.startsWith resolved (targetPath p)) eqn:E.
  - intros [= <-]. exists p. repeat split; auto.
  - intros H. destruct (IH H) as (q & Hin & Hq). exists q. split; auto.
Qed.

Lemma checkPath_spec kind target importPath r :
  In r (checkPath context v kind target importPath) ->
  shouldUseAlias context v importPath (getFilename context) = true
  /\ aliasFix context v target importPath r.
Proof.
  unfold checkPath.
  destruct (shouldUseAlias context v importPath (getFilename context));
    [|contradiction].
  destruct (findMatchingAlias context importPath (getFilename context)
                              (aliasPatterns v)) as [[|c a]|] eqn:E;
    try contradiction.
  intros [<- | []]. split; [reflexivity|].
  destruct (findMatchingAliasLoop_spec _ _ E) as (p & Hin & Hst & Ha).
  exists p, (String c a). cbn [r_node fix_].
  repeat split; try assumption.
  intros before lit after H1 H2. destruct target as [t1 t2]. simpl in H1, H2.
  subst t1 t2. cbn [applyFix]. rewrite splice_middle.
  now rewrite !append_assoc.
Qed.
End Facts.

(** C3, as stated, fails on the quotes.  For
    [import { helpers } from "../utils/helpers";] the fix covers the whole
    literal, quotes included, and writes the alias between single quotes:
    the fixed line is [import { helpers } from '@/utils/helpers';]. *)
Lemma C3_double_quotes_become_single_quotes :
  lint noScan plainPattern (buttonFile [("@/*", ["./*"])]) [EImport importHelpers]
  = Reports
      [ {| r_node := (24, 42);
           message := "Use path alias '@/utils/helpers' instead of relative import '../utils/helpers'";
           fix_ := ReplaceText (24, 42) "'@/utils/helpers'" |} ]
  /\ substring 24 18 helpersSource = source_raw importHelpers
  /\ substring 24 1 helpersSource = dq
  /\ applyFix helpersSource (ReplaceText (24, 42) "'@/utils/helpers'")
     = "import { helpers } from '@/utils/helpers';"
  /\ substring 24 1 (applyFix helpersSource (ReplaceText (24, 42) "'@/utils/helpers'"))
     = "'".
Proof. repeat split; reflexivity. Qed.

(** C3, amended.  Every report of the [ImportDeclaration] callback and of
    the [CallExpression] callback (for [require] with one string literal)
    sits on the path literal; its fix replaces the text of that literal
    only, quotes included, by ['<alias>/<relative-remainder>'] in single
    quotes, backslashes turned into slashes, for the first alias pattern
    whose target is a prefix of the resolved import path.  The text before
    and after the literal is untouched. *)
Theorem C3_fix_replaces_literal_with_single_quoted_alias context v :
  (forall n r,
      In r (ImportDeclaration context v n) ->
      aliasFix context v (source_range n) (source_value n) r)
  /\ (forall n rs r,
         CallExpression context v n = Reports rs ->
         In r rs ->
         exists l importPath,
           arguments n = [LiteralArg l]
           /\ value l = StringValue importPath
           /\ aliasFix context v (l_range l) importPath r).
Proof.
  split.
  - intros n r H. now apply (checkPath_spec _ _ _ _ _ _ H).
  - intros n rs r Hc Hr. unfold CallExpression in Hc.
    destruct (callee_name n) as [name|]; [|injection Hc as <-; contradiction].
    destruct (arguments n) as [|[l|] [|]]; try (injection Hc as <-; contradiction).
    destruct (String.eqb name "require"); [|injection Hc as <-; contradiction].
    destruct (value l) as [importPath|] eqn:Hv; [|discriminate].
    injection Hc as <-. exists l, importPath.
    split; [reflexivity|]. split; [assumption|].
    now apply (checkPath_spec _ _ _ _ _ _ Hr).
Qed.

(** *** Resolved paths and the direct children of the base *)

Lemma split_noSep s : noSep s -> JS.split "/" s = [s].
Proof.
  induction s as [|c s IH]; simpl; [reflexivity|].
  intros [Hc Hs]. apply Ascii.eqb_neq in Hc. rewrite Hc, (IH Hs). reflexivity.
Qed.

Lemma split_app_sep x : forall rest,
  noSep x ->
  JS.split "/" (x ++ String "/" rest) = x :: JS.split "/" rest.
Proof.
  induction x as [|c x IH]; intros rest H.
  - reflexivity.
  - destruct H as [Hc Hx]. apply Ascii.eqb_neq in Hc.
    cbn [append JS.split]. rewrite Hc. now rewrite (IH rest Hx).
Qed.

Lemma split_all_noSep s : Forall noSep (JS.split "/" s).
Proof.
  induction s as [|c s IH]; cbn [JS.split].
  - repeat constructor.
  - destruct (Ascii.eqb c "/") eqn:E.
    + constructor; [exact I | assumption].
    + apply Ascii.eqb_neq in E.
      destruct (JS.split "/" s) as [|h t].
      * repeat constructor. assumption.
      * inversion IH; subst. constructor; [|assumption].
        split; assumption.
Qed.

Lemma join_cons x y segs :
  JS.join "/" (x :: y :: segs) = (x ++ String "/" (JS.join "/" (y :: segs)))%string.
Proof. reflexivity. Qed.

Lemma split_join segs :
  segs <> [] -> Forall noSep segs ->
  JS.split "/" (JS.join "/" segs) = segs.
Proof.
  induction segs as [|x segs IH]; [congruence|]. intros _ H.
  inversion H as [|? ? Hx Hs]; subst.
  destruct segs as [|y segs].
  - now apply split_noSep.
  - rewrite join_cons, (@split_app_sep _ _ Hx). f_equal.
    apply IH; [discriminate | assumption].
Qed.

Lemma split_join_trailing segs :
  segs <> [] -> Forall noSep segs ->
  JS.split "/" (JS.join "/" segs ++ "/") = segs ++ [""].
Proof.
  induction segs as [|x segs IH]; [congruence|]. intros _ H.
  inversion H as [|? ? Hx Hs]; subst.
  destruct segs as [|y segs].
  - cbn [JS.join String.concat app].
    change (x ++ "/")%string with (x ++ String "/" "")%string.
    now rewrite (@split_app_sep _ _ Hx).
  - rewrite join_cons, append_assoc. cbn [append].
    rewrite (@split_app_sep _ _ Hx). cbn [app]. f_equal.
    apply IH; [discriminate | assumption].
Qed.

Lemma clean_noSep segs : Forall cleanSegment segs -> Forall noSep segs.
Proof. apply Forall_impl. intros s (_ & _ & _ & H). exact H. Qed.

Lemma normalize_clean allow segs : forall acc tail,
  Forall cleanSegment segs ->
  NodePath.normalizeSegments allow acc (segs ++ tail)
  = NodePath.normalizeSegments allow (rev segs ++ acc) tail.
Proof.
  induction segs as [|s segs IH]; intros acc tail H; [reflexivity|].
  inversion H as [|? ? (H1 & H2 & H3 & _) Hs]; subst.
  apply String.eqb_neq in H1, H2, H3.
  cbn [app NodePath.normalizeSegments]. rewrite H1, H2, H3. cbn [orb].
  rewrite (IH _ _ Hs). cbn [rev]. now rewrite <- app_assoc.
Qed.

Lemma filter_clean segs :
  Forall cleanSegment segs ->
  filter (fun s => negb (String.eqb s "")) segs = segs.
Proof.
  induction 1 as [|s segs (H1 & _) _ IH]; simpl; [reflexivity|].
  apply String.eqb_neq in H1. rewrite H1. simpl. now rewrite IH.
Qed.

Lemma segments_render segs :
  Forall cleanSegment segs -> NodePath.segments (render segs) = segs.
Proof.
  intros H. unfold NodePath.segments, render, NodePath.sep.
  cbn [JS.split Ascii.eqb Bool.eqb]. cbn [filter String.eqb negb].
  destruct segs as [|x segs]; [reflexivity|].
  rewrite split_join; [now apply filter_clean | discriminate | now apply clean_noSep].
Qed.

Lemma resolve_render cwd segs :
  Forall cleanSegment segs -> NodePath.resolve cwd [render segs] = render segs.
Proof.
  intros H. unfold NodePath.resolve, render.
  cbn [rev app NodePath.resolveLoop String.eqb NodePath.isAbsolute append].
  unfold NodePath.sep. cbn [Ascii.eqb Bool.eqb].
  unfold NodePath.normalizeString, NodePath.sep.
  cbn [JS.split Ascii.eqb Bool.eqb].
  cbn [NodePath.normalizeSegments String.eqb orb].
  destruct segs as [|x segs]; [reflexivity|].
  rewrite split_join_trailing; [|discriminate | now apply clean_noSep].
  rewrite (@normalize_clean _ _ _ _ H). cbn [NodePath.normalizeSegments String.eqb orb].
  now rewrite app_nil_r, rev_involutive.
Qed.

Lemma stripCommon_app a : forall d, NodePath.stripCommon a (a ++ d) = ([], d).
Proof.
  induction a as [|x a IH]; intros d; [now destruct d|].
  cbn [app NodePath.stripCommon]. now rewrite String.eqb_refl.
Qed.

Lemma stripCommon_no_up a : forall b d,
  NodePath.stripCommon a b = ([], d) -> b = a ++ d.
Proof.
  induction a as [|x a IH]; intros b d H.
  - destruct b; injection H as <-; reflexivity.
  - destruct b as [|y b]; [discriminate|]. cbn [NodePath.stripCommon] in H.
    destruct (String.eqb x y) eqn:E; [|discriminate].
    apply String.eqb_eq in E. subst y. cbn [app]. f_equal. now apply IH.
Qed.

Lemma relative_render cwd a b :
  Forall cleanSegment a -> Forall cleanSegment b ->
  NodePath.relative cwd (render a) (render b) =
    if String.eqb (render a) (render b) then ""
    else let (up, down) := NodePath.stripCommon a b in
         JS.join "/" (map (fun _ => "..") up ++ down).
Proof.
  intros Ha Hb. unfold NodePath.relative.
  rewrite (resolve_render cwd Ha), (resolve_render cwd Hb).
  rewrite (segments_render Ha), (segments_render Hb).
  now destruct (String.eqb (render a) (render b)).
Qed.

Lemma render_inj a b :
  Forall cleanSegment a -> Forall cleanSegment b -> render a = render b -> a = b.
Proof.
  intros Ha Hb H. rewrite <- (segments_render Ha), <- (segments_render Hb).
  now rewrite H.
Qed.

Lemma prefix_dots_join c rest :
  c <> "" -> noSep c ->
  String.prefix ".." (c ++ String "/" rest) = String.prefix ".." c.
Proof.
  intros Hc Hs. destruct c as [|x [|y r]]; [congruence | |].
  - cbn [append String.prefix]. destruct (ascii_dec "." x); [|reflexivity].
    destruct (ascii_dec "." "/"); [discriminate | reflexivity].
  - cbn [append String.prefix]. destruct (ascii_dec "." x); [|reflexivity].
    destruct (ascii_dec "." y); [|reflexivity]. now destruct r.
Qed.

Lemma join_up_starts_with_dots up down :
  up <> [] ->
  String.prefix ".." (JS.join "/" (map (fun _ : string => "..") up ++ down)) = true.
Proof.
  destruct up as [|u up]; [congruence|]. intros _. cbn [map app].
  destruct (map (fun _ : string => "..") up ++ down); reflexivity.
Qed.

Section DirectChildren.
Variable context : Context.
Variable v : Visitor.

Lemma isDirectChildOfSrc_render base target :
  Forall cleanSegment base -> Forall cleanSegment target ->
  NodePath.resolve (getCwd context) [getCwd context; finalBaseUrl v] = render base ->
  (isDirectChildOfSrc context v (render target) = true <->
   exists child name,
     target = base ++ [child; name] /\ JS.startsWith child ".." = false).
Proof.
  intros Hb Ht Hsrc. unfold isDirectChildOfSrc, JS.startsWith, NodePath.sep.
  rewrite Hsrc, (relative_render _ Hb Ht). split.
  - destruct (String.eqb (render base) (render target)); [discriminate|].
    destruct (NodePath.stripCommon base target) as [up down] eqn:E.
    destruct up as [|u up].
    + apply stripCommon_no_up in E. subst target. cbn [map app].
      apply Forall_app in Ht. destruct Ht as [_ Hd].
      destruct down as [|c down]; [discriminate|].
      rewrite split_join; [|discriminate | now apply clean_noSep].
      destruct down as [|f [|g down]]; try discriminate.
      intros H. apply andb_true_iff in H. destruct H as [_ H].
      inversion Hd as [|? ? (H1 & _ & _ & Hc) _]; subst.
      rewrite join_cons, (prefix_dots_join _ H1 Hc) in H.
      exists c, f. split; [reflexivity|]. now apply negb_true_iff.
    + rewrite (@join_up_starts_with_dots (u :: up) down); [|discriminate].
      rewrite andb_false_r. discriminate.
  - intros (c & f & -> & Hc).
    assert (Hd : Forall cleanSegment [c; f]) by (apply Forall_app in Ht; tauto).
    destruct (String.eqb (render base) (render (base ++ [c; f]))) eqn:E.
    + apply String.eqb_eq in E. apply (render_inj Hb Ht) in E.
      apply (f_equal (@List.length string)) in E. rewrite List.length_app in E.
      simpl in E. lia.
    + rewrite stripCommon_app. cbn [map app].
      rewrite split_join; [|discriminate | now apply clean_noSep].
      inversion Hd as [|? ? (H1 & _ & _ & Hs) _]; subst.
      rewrite join_cons, (prefix_dots_join _ H1 Hs). unfold JS.startsWith in Hc.
      now rewrite Hc.
Qed.
End DirectChildren.

Lemma resolveLoop_absolute cwd l : forall acc,
  NodePath.isAbsolute cwd = true ->
  exists p, NodePath.resolveLoop (l ++ [cwd]) acc = (p, true).
Proof.
  induction l as [|x l IH]; intros acc H; cbn [app NodePath.resolveLoop].
  - destruct cwd as [|c r]; [discriminate|]. cbn [String.eqb]. rewrite H. eauto.
  - destruct (String.eqb x ""); [now apply IH|].
    destruct (NodePath.isAbsolute x); [eauto | now apply IH].
Qed.

Lemma normalize_all_clean l : forall acc,
  Forall noSep l -> Forall cleanSegment acc ->
  Forall cleanSegment (NodePath.normalizeSegments false acc l).
Proof.
  induction l as [|s l IH]; intros acc Hl Hacc; cbn [NodePath.normalizeSegments].
  - now apply Forall_rev.
  - inversion Hl as [|? ? Hs Hl']; subst.
    destruct (String.eqb s "") eqn:E1; [now apply IH|].
    destruct (String.eqb s ".") eqn:E2; [now apply IH|]. cbn [orb].
    destruct (String.eqb s "..") eqn:E3.
    + destruct acc as [|top acc']; [now apply IH|].
      inversion Hacc; subst.
      destruct (String.eqb top ".."); now apply IH.
    + apply IH; [assumption|]. constructor; [|assumption].
      apply String.eqb_neq in E1, E2, E3. repeat split; assumption.
Qed.

Lemma resolve_canonical cwd args :
  NodePath.isAbsolute cwd = true ->
  exists segs, Forall cleanSegment segs /\ NodePath.resolve cwd args = render segs.
Proof.
  intros H. unfold NodePath.resolve.
  destruct (@resolveLoop_absolute cwd (rev args) "" H) as [p Hp]. rewrite Hp.
  cbn [negb]. unfold NodePath.normalizeString.
  exists (NodePath.normalizeSegments false [] (JS.split NodePath.sep p)).
  split; [|reflexivity].
  apply normalize_all_clean; [apply split_all_noSep | constructor].
Qed.

(** X25.  In [direct-children] mode, a relative import that no excluded folder
    covers passes [shouldUseAlias] exactly when its resolved target lies two
    segments below the base directory, that is, inside an immediate child
    folder of the base, the name of that folder not starting with [".."]. *)
Theorem direct_children_iff context v importPath :
  NodePath.isAbsolute (getCwd context) = true ->
  mode_ context = "direct-children" ->
  JS.startsWith importPath "../" || JS.startsWith importPath "./" = true ->
  existsb (fun excludeFolder =>
             JS.startsWith
               (NodePath.relative (getCwd context) (getCwd context)
                  (NodePath.resolve (getCwd context)
                     [NodePath.dirname (getFilename context); importPath]))
               excludeFolder)
          (excludeFolders context) = false ->
  (shouldUseAlias context v importPath (getFilename context) = true <->
   exists child name,
     NodePath.segments
       (NodePath.resolve (getCwd context)
          [NodePath.dirname (getFilename context); importPath])
     = NodePath.segments
         (NodePath.resolve (getCwd context) [getCwd context; finalBaseUrl v])
       ++ [child; name]
     /\ JS.startsWith child ".." = false).
Proof.
  intros Habs Hmode Hrel Hexcl. unfold shouldUseAlias.
  rewrite Hexcl, Hmode. cbn [String.eqb Ascii.eqb Bool.eqb].
  replace (negb (JS.startsWith importPath "../") && negb (JS.startsWith importPath "./"))
    with false
    by (symmetry; rewrite <- negb_orb; now rewrite Hrel).
  destruct (@resolve_canonical _ [getCwd context; finalBaseUrl v] Habs)
    as (base & Hb & Hbase).
  destruct (@resolve_canonical _ [NodePath.dirname (getFilename context); importPath] Habs)
    as (target & Ht & Htarget).
  rewrite Htarget, Hbase, (segments_render Hb), (segments_render Ht).
  now apply isDirectChildOfSrc_render.
Qed.

(** *** Direct children of the base directory *)

Lemma direct_children_examples :
  lint noScan plainPattern (buttonFile [("@/*", ["./*"])])
       [EImport importHelpers; EImport importDeepHelpers]
  = Reports
      [ {| r_node := (24, 42);
           message := "Use path alias '@/utils/helpers' instead of relative import '../utils/helpers'";
           fix_ := ReplaceText (24, 42) "'@/utils/helpers'" |} ]
  /\ shouldUseAlias (buttonFile [("@/*", ["./*"])])
                    {| finalBaseUrl := "./src"; aliasPatterns := [] |}
                    "../utils/deep/helpers" "/proj/src/components/Button.tsx"
     = false.
Proof. split; reflexivity. Qed.

(** C6.  With base ["./src"] and the mapping [{"@/*": ["./src/*"]}], the
    target of the alias is resolved against the base and becomes
    [/proj/src/src].  From [src/components/Button.tsx] the import
    ["../utils/helpers"] passes the direct-children test, but no alias
    pattern matches its resolved path, and nothing is reported. *)
Theorem C6_documented_mapping_yields_no_report :
  create noScan plainPattern (buttonFile [("@/*", ["./src/*"])])
  = (Callbacks
       (Some {| finalBaseUrl := "./src";
                aliasPatterns := [ {| alias := "@"; targetPath := "/proj/src/src" |} ] |}),
     [])
  /\ shouldUseAlias (buttonFile [("@/*", ["./src/*"])])
                    {| finalBaseUrl := "./src";
                       aliasPatterns := [ {| alias := "@";
                                             targetPath := "/proj/src/src" |} ] |}
                    "../utils/helpers" "/proj/src/components/Button.tsx"
     = true
  /\ findMatchingAlias (buttonFile [("@/*", ["./src/*"])])
                       "../utils/helpers" "/proj/src/components/Button.tsx"
                       [ {| alias := "@"; targetPath := "/proj/src/src" |} ]
     = None
  /\ lint noScan plainPattern (buttonFile [("@/*", ["./src/*"])]) [EImport importHelpers]
     = Reports [].
Proof. repeat split; reflexivity. Qed.

(** *** Files the rule does not look at *)

Lemma find_none (A : Type) (f : A -> bool) l :
  (forall x, In x l -> f x = false) -> find f l = None.
Proof.
  induction l as [|x l IH]; intros H; simpl; [reflexivity|].
  rewrite (H x (or_introl eq_refl)). apply IH. intros y Hy. apply H. now right.
Qed.

(** C10.  For a file whose name ends in [.d.ts] while
    [includeDeclarationFiles] is off, or whose name ends in none of the
    supported extensions, [create] returns the empty visitor object without
    a single call into [fs] (no base directory is detected, no mapping is
    read, no pattern is built); no callback runs, whatever the file
    holds. *)
Theorem C10_unsupported_file_gets_empty_visitor scan regExpCompiles context :
  (isDeclarationFile context = true /\ includeDeclarationFiles_ context = false)
  \/ (forall ext, In ext (supportedExtensions_ context) ->
                  JS.endsWith (filename context) ext = false) ->
  create scan regExpCompiles context = (Callbacks None, [])
  /\ forall evs, lint scan regExpCompiles context evs = Reports [].
Proof.
  intros H.
  assert (Hc : create scan regExpCompiles context = (Callbacks None, [])).
  { unfold create. destruct H as [[Hd Hi] | Hext].
    - now rewrite Hd, Hi.
    - rewrite (@find_none _ (fun ext => JS.endsWith (filename context) ext) _ Hext).
      now destruct (isDeclarationFile context && negb (includeDeclarationFiles_ context)). }
  split; [assumption|]. intros evs. unfold lint. now rewrite Hc.
Qed.

(** A declaration file and a Markdown file, with the default options. *)
Lemma C10_unsupported_file_gets_empty_visitor_witness :
  (create noScan plainPattern declarationFile = (Callbacks None, [])
   /\ forall evs, lint noScan plainPattern declarationFile evs = Reports [])
  /\ (create noScan plainPattern markdownFile = (Callbacks None, [])
      /\ forall evs, lint noScan plainPattern markdownFile evs = Reports []).
Proof.
  split.
  - apply C10_unsupported_file_gets_empty_visitor. left. split; reflexivity.
  - apply C10_unsupported_file_gets_empty_visitor. right.
    intros ext Hext. simpl in Hext.
    repeat (destruct Hext as [<- | Hext]; [reflexivity|]). contradiction.
Defined.

(** *** Project references *)

Lemma obj_get_set o : forall k v k',
  obj_get (obj_set o k v) k' = if String.eqb k k' then Some v else obj_get o k'.
Proof.
  induction o as [|[k0 v0] o IH]; intros k v k'; simpl.
  - reflexivity.
  - destruct (String.eqb k0 k) eqn:E; simpl.
    + apply String.eqb_eq in E. subst k. now destruct (String.eqb k0 k').
    + rewrite IH. destruct (String.eqb k0 k') eqn:E'; [|reflexivity].
      apply String.eqb_eq in E'. subst k'. now rewrite String.eqb_sym, E.
Qed.

Lemma obj_get_None o k : ~ In k (map fst o) -> obj_get o k = None.
Proof.
  induction o as [|[k0 v0] o IH]; simpl; [reflexivity|]. intros H.
  destruct (String.eqb k0 k) eqn:E.
  - apply String.eqb_eq in E. tauto.
  - apply IH. tauto.
Qed.

(** [Object.assign]: the entries of the source win. *)
Lemma obj_get_assign source : forall target k,
  wf_object source ->
  obj_get (obj_assign target source) k =
    match obj_get source k with
    | Some v => Some v
    | None => obj_get target k
    end.
Proof.
  unfold obj_assign, wf_object.
  induction source as [|[k0 v0] source IH]; intros target k Hwf; simpl.
  - reflexivity.
  - inversion Hwf as [|? ? Hnotin Hwf']; subst.
    rewrite (IH _ _ Hwf'), obj_get_set. simpl.
    destruct (String.eqb k0 k) eqn:E; [|reflexivity].
    apply String.eqb_eq in E. subst k0. now rewrite (obj_get_None _ _ Hnotin).
Qed.

Section References.
Variable context : Context.
Variable projectRoot : string.

Lemma mergeReferences_fold refs : forall allPaths,
  fst (mergeReferences context projectRoot refs allPaths)
  = fold_left (mergeOne context projectRoot) refs allPaths.
Proof.
  induction refs as [|ref refs IH]; intros allPaths; [reflexivity|].
  cbn [mergeReferences fold_left]. rewrite <- IH.
  unfold mergeOne, referencePaths, referenceConfigPath.
  unfold bind, fs_existsSync, fs_isFile, readJSON, ret.
  set (refPath := NodePath.resolve (getCwd context) [projectRoot; ref_path ref]).
  destruct (fs context refPath) as [[text json | names]|];
    cbn [fst snd].
  - fold refPath. destruct (fs context refPath) as [[text' [t|] | names]|];
      cbn -[mergeReferences];
      repeat match goal with
             | |- context [mergeReferences ?c ?r ?l ?a] =>
                 destruct (mergeReferences c r l a); cbn
             end; reflexivity.
  - destruct (fs context (NodePath.join [refPath; "tsconfig.json"]))
      as [[text' [t|] | names']|];
      cbn -[mergeReferences];
      repeat match goal with
             | |- context [mergeReferences ?c ?r ?l ?a] =>
                 destruct (mergeReferences c r l a); cbn
             end; reflexivity.
  - destruct (fs context (NodePath.join [refPath; "tsconfig.json"]))
      as [[text' [t|] | names']|];
      cbn -[mergeReferences];
      repeat match goal with
             | |- context [mergeReferences ?c ?r ?l ?a] =>
                 destruct (mergeReferences c r l a); cbn
             end; reflexivity.
Qed.

Lemma fold_merge_untouched k refs : forall allPaths,
  (forall ref p, In ref refs -> referencePaths context projectRoot ref = Some p ->
                 wf_object p /\ obj_get p k = None) ->
  obj_get (fold_left (mergeOne context projectRoot) refs allPaths) k = obj_get allPaths k.
Proof.
  induction refs as [|ref refs IH]; intros allPaths H; [reflexivity|].
  cbn [fold_left]. rewrite IH.
  - unfold mergeOne.
    destruct (referencePaths context projectRoot ref) as [p|] eqn:E; [|reflexivity].
    destruct (H ref p (or_introl eq_refl) E) as [Hwf Hk].
    now rewrite (obj_get_assign _ _ Hwf), Hk.
  - intros r p Hr. apply H. now right.
Qed.

Lemma fold_merge_skip before ref after allPaths :
  referencePaths context projectRoot ref = None ->
  fold_left (mergeOne context projectRoot) (before ++ ref :: after) allPaths
  = fold_left (mergeOne context projectRoot) (before ++ after) allPaths.
Proof.
  intros H. rewrite !fold_left_app. cbn [fold_left]. unfold mergeOne at 2.
  now rewrite H.
Qed.

Lemma fold_merge_last k before ref after p v allPaths :
  referencePaths context projectRoot ref = Some p ->
  wf_object p ->
  obj_get p k = Some v ->
  (forall r q, In r after -> referencePaths context projectRoot r = Some q ->
               wf_object q /\ obj_get q k = None) ->
  obj_get (fold_left (mergeOne context projectRoot) (before ++ ref :: after) allPaths) k = Some v.
Proof.
  intros Hp Hwf Hk Hafter. rewrite fold_left_app. cbn [fold_left].
  rewrite (fold_merge_untouched _ _ _ Hafter). unfold mergeOne at 1.
  now rewrite Hp, (obj_get_assign _ _ Hwf), Hk.
Qed.
End References.

Lemma obj_assign_empty p k :
  wf_object p -> obj_get (obj_assign [] p) k = obj_get p k.
Proof.
  intros H. rewrite (obj_get_assign _ _ H). now destruct (obj_get p k).
Qed.

Lemma resolveProjectReferences_with_references context tsconfigPath text tsconfig refs :
  fs context tsconfigPath = Some (File text (Some tsconfig)) ->
  references tsconfig = Some refs ->
  fst (resolveProjectReferences context tsconfigPath)
  = fst (mergeReferences context (NodePath.dirname tsconfigPath) refs
           (obj_assign [] (parentPaths tsconfig))).
Proof.
  intros Hfs Hrefs. unfold resolveProjectReferences, bind, readJSON, parentPaths.
  rewrite Hfs, Hrefs.
  replace (match configPaths tsconfig with
           | Some p => obj_assign [] p
           | None => []
           end)
    with (obj_assign [] match configPaths tsconfig with
                        | Some p => p
                        | None => []
                        end)
    by now destruct (configPaths tsconfig).
  now destruct (mergeReferences _ _ _ _).
Qed.

(** C7, as stated, fails: the parent maps ["@/*"] to ["./src/*"], the
    referenced project [packages/ui] maps it to ["./lib/*"], and the merged
    mappings hold the entry of the reference. *)
Lemma C7_reference_overrides_parent_entry :
  fst (resolveProjectReferences monorepo "/proj/tsconfig.json")
  = [("@/*", ["./lib/*"]); ("@app/*", ["./app/*"]); ("@ui/*", ["./ui/*"])]
  /\ obj_get (parentPaths parentConfig) "@/*" = Some ["./src/*"]
  /\ obj_get (fst (resolveProjectReferences monorepo "/proj/tsconfig.json")) "@/*"
     = Some ["./lib/*"].
Proof. repeat split; reflexivity. Qed.

(** C7, amended.  When the project config declares references, then for
    every key
    - the merged mappings hold the entry of the last reference, in the
      order of the [references] array, whose config declares the key, also
      when the parent declares it too;
    - a key no reference declares keeps the entry of the parent;
    and a reference whose config cannot be read or parsed leaves the
    mappings collected so far as they are, the loop going on with the
    references after it. *)
Theorem C7_last_declaring_config_wins context tsconfigPath text tsconfig refs :
  fs context tsconfigPath = Some (File text (Some tsconfig)) ->
  references tsconfig = Some refs ->
  wf_object (parentPaths tsconfig) ->
  (forall ref p,
      In ref refs ->
      referencePaths context (NodePath.dirname tsconfigPath) ref = Some p ->
      wf_object p) ->
  (forall k before ref after p v,
      refs = before ++ ref :: after ->
      referencePaths context (NodePath.dirname tsconfigPath) ref = Some p ->
      obj_get p k = Some v ->
      (forall r q,
          In r after ->
          referencePaths context (NodePath.dirname tsconfigPath) r = Some q ->
          obj_get q k = None) ->
      obj_get (fst (resolveProjectReferences context tsconfigPath)) k = Some v)
  /\ (forall k,
         (forall ref p,
             In ref refs ->
             referencePaths context (NodePath.dirname tsconfigPath) ref = Some p ->
             obj_get p k = None) ->
         obj_get (fst (resolveProjectReferences context tsconfigPath)) k
         = obj_get (parentPaths tsconfig) k)
  /\ (forall before ref after allPaths,
         fst (readJSON context
                (referenceConfigPath context (NodePath.dirname tsconfigPath) ref))
         = None ->
         fst (mergeReferences context (NodePath.dirname tsconfigPath)
                              (before ++ [ref]) allPaths)
         = fst (mergeReferences context (NodePath.dirname tsconfigPath)
                                before allPaths)
         /\ fst (mergeReferences context (NodePath.dirname tsconfigPath)
                                 (before ++ ref :: after) allPaths)
            = fst (mergeReferences context (NodePath.dirname tsconfigPath)
                                   (before ++ after) allPaths)).
Proof.
  intros Hfs Hrefs Hwf Hwfs.
  pose proof (resolveProjectReferences_with_references _ _ Hfs Hrefs) as Hres.
  rewrite Hres, mergeReferences_fold. split; [|split].
  - intros k before ref after p v -> Hp Hk Hafter.
    apply fold_merge_last with (p := p); auto.
    + apply (Hwfs ref p); [apply in_or_app; right; now left | assumption].
    + intros r q Hr Hq. split; [|now apply (Hafter r q)].
      apply (Hwfs r q); [apply in_or_app; right; now right | assumption].
  - intros k Hnone. rewrite fold_merge_untouched.
    + now apply obj_assign_empty.
    + intros ref p Hin Hp. split; [now apply (Hwfs ref p) | now apply (Hnone ref p)].
  - intros before ref after allPaths Hfail.
    assert (Hnone : referencePaths context (NodePath.dirname tsconfigPath) ref = None).
    { unfold referencePaths. unfold readJSON in Hfail. cbn [fst] in Hfail.
      destruct (fs context
                   (referenceConfigPath context (NodePath.dirname tsconfigPath) ref))
        as [[t [c|] | names]|]; try reflexivity. discriminate. }
    rewrite !mergeReferences_fold. split.
    + rewrite <- (app_nil_r before) at 2. now apply fold_merge_skip.
    + now apply fold_merge_skip.
Qed.

(** In the sample project ["@/*"] comes from [packages/ui], the last reference
    that declares it, and ["@app/*"] from the parent. *)
Lemma C7_last_declaring_config_wins_witness :
  obj_get (fst (resolveProjectReferences monorepo "/proj/tsconfig.json")) "@/*"
  = Some ["./lib/*"]
  /\ obj_get (fst (resolveProjectReferences monorepo "/proj/tsconfig.json")) "@app/*"
     = obj_get (parentPaths parentConfig) "@app/*".
Proof.
  assert (Hwf : wf_object (parentPaths parentConfig)).
  { repeat constructor; simpl; intuition discriminate. }
  assert (Hwfs : forall ref p,
             In ref [ {| ref_path := "./packages/broken" |};
                      {| ref_path := "./packages/ui" |} ] ->
             referencePaths monorepo (NodePath.dirname "/proj/tsconfig.json") ref
             = Some p ->
             wf_object p).
  { intros ref p [<- | [<- | []]]; [discriminate|].
    intros [= <-]. repeat constructor; simpl; intuition discriminate. }
  pose proof (@C7_last_declaring_config_wins monorepo "/proj/tsconfig.json"
                "{ parent }" parentConfig _ eq_refl eq_refl Hwf Hwfs)
    as (Hlast & Hparent & _).
  split.
  - apply (Hlast "@/*" [ {| ref_path := "./packages/broken" |} ]
                 {| ref_path := "./packages/ui" |} []
                 [("@/*", ["./lib/*"]); ("@ui/*", ["./ui/*"])] ["./lib/*"]);
      try reflexivity.
    intros r q [].
  - apply Hparent. intros ref p [<- | [<- | []]]; [discriminate|].
    intros [= <-]. reflexivity.
Defined.

End EnforcePathAlias.

(** * Further properties of the three rules *)

From Stdlib Require Import Sorted Permutation.

(** ** More on rule [no-arrow-components] *)

Module NoArrowComponentsFacts.
Import ESTree NoArrowComponents.

(** The component-flavoured message ids. *)
Definition isComponentMessage (m : MessageId) : bool :=
  match m with
  | arrowComponent | tsArrowComponent => true
  | arrowFunction | tsArrowFunction => false
  end.

(** The message id the rule picks for a declarator, from the flavour of the
    file and the classification of the binding. *)
Definition messageFor (context : Context) (isComponent : bool) : MessageId :=
  if isTypeScript context && checkTS context
  then (if isComponent then tsArrowComponent else tsArrowFunction)
  else (if isComponent then arrowComponent else arrowFunction).

(** The report of a declarator that binds an identifier to an arrow function
    or a function expression, as a plain top-level function. *)
Definition functionReport (context : Context) (decl : VariableDeclarator)
  : list Report :=
  match id decl, init decl with
  | Identifier name, Some e =>
      if isFunctionValue e
      then [ {| r_node := d_range decl;
                messageId := messageFor context false;
                r_name := name |} ]
      else []
  | _, _ => []
  end.

Definition pascalNamed (decl : VariableDeclarator) : bool :=
  match id decl with
  | Identifier name => isPascalCase name
  | OtherPattern => false
  end.

(** What a report says about the declarator it comes from. *)
Definition reportedFor (context : Context) (decls : list VariableDeclarator)
           (r : Report) : Prop :=
  exists decl e,
    In decl decls
    /\ r_node r = d_range decl
    /\ id decl = Identifier (r_name r)
    /\ init decl = Some e
    /\ isFunctionValue e = true
    /\ isWrappedCall e = false
    /\ messageId r
       = messageFor context (isReactComponent context decl (r_name r))
    /\ (isReactComponent context decl (r_name r) = false -> allow context = false).

(** [Foo = memo(() => <div/>)], [helper = () => 1], [limit = 3] and
    [twice = function (x) { ... }] *)
Definition declMemo : VariableDeclarator :=
  {| d_range := (26, 52);
     id := Identifier "Foo";
     init := Some (CallExpression [ArrowFunctionExpression (ExprBody JSXElement)]) |}.

Definition declHelper : VariableDeclarator :=
  {| d_range := (6, 24);
     id := Identifier "helper";
     init := Some (ArrowFunctionExpression (ExprBody OtherExpr)) |}.

Definition declLimit : VariableDeclarator :=
  {| d_range := (26, 35); id := Identifier "limit"; init := Some OtherExpr |}.

Definition declTwice : VariableDeclarator :=
  {| d_range := (37, 70); id := Identifier "twice"; init := Some FunctionExpression |}.

(** [const helper = () => 1, limit = 3, twice = function (x) { ... };] *)
Definition helpersStatement : VariableDeclarationNode :=
  {| parent := Program; declarations := [declHelper; declLimit; declTwice] |}.

Lemma isReactComponent_pascal context decl name :
  isReactComponent context decl name = true -> isPascalCase name = true.
Proof.
  unfold isReactComponent. destruct (isPascalCase name); [reflexivity|].
  cbn. discriminate.
Qed.

Lemma isReactComponent_baseline context decl name :
  isTypeScript context && checkTS context = false ->
  isReactComponent context decl name = isPascalCase name.
Proof.
  intros H. unfold isReactComponent. rewrite H.
  now destruct (isPascalCase name).
Qed.

Lemma function_not_wrapped e :
  isFunctionValue e = true -> isWrappedCall e = false.
Proof. destruct e; simpl; congruence. Qed.

Lemma reportedFor_cons context decl decls r :
  reportedFor context decls r -> reportedFor context (decl :: decls) r.
Proof.
  intros (d0 & e & Hin & R). exists d0, e. split; [now right | exact R].
Qed.

Lemma declaratorLoop_sound context decls : forall r,
  In r (declaratorLoop context decls) -> reportedFor context decls r.
Proof.
  induction decls as [|decl decls IH]; intros r Hr; [contradiction|].
  cbn [declaratorLoop] in Hr.
  assert (Hrest : In r (declaratorLoop context decls) ->
                  reportedFor context (decl :: decls) r).
  { intros H. apply reportedFor_cons. now apply IH. }
  destruct (id decl) as [name|] eqn:Eid; [|auto].
  destruct (init decl) as [ini|] eqn:Eini; [|auto].
  destruct (isReactComponent context decl name) eqn:Ec; cbn [andb negb] in Hr.
  - destruct (isWrappedCall ini) eqn:Ew; [contradiction|].
    destruct (isFunctionValue ini) eqn:Ef; [|auto].
    destruct Hr as [<- | []]. exists decl, ini. cbn [r_node r_name messageId].
    rewrite Ec. unfold messageFor.
    split; [now left|]. split; [reflexivity|]. split; [assumption|].
    split; [assumption|]. split; [assumption|]. split; [assumption|].
    split; [reflexivity | discriminate].
  - destruct (allow context) eqn:Ea; cbn [andb negb] in Hr; [auto|].
    destruct (isFunctionValue ini) eqn:Ef; [|auto].
    destruct Hr as [<- | Hr]; [|auto].
    exists decl, ini. cbn [r_node r_name messageId]. rewrite Ec. unfold messageFor.
    split; [now left|]. split; [reflexivity|]. split; [assumption|].
    split; [assumption|]. split; [assumption|].
    split; [now apply function_not_wrapped|].
    split; [reflexivity | intros _; first [assumption | reflexivity]].
Qed.

Lemma VariableDeclaration_sound context node r :
  In r (VariableDeclaration context node) ->
  (parent node = Program \/ parent node = ExportNamedDeclaration)
  /\ reportedFor context (declarations node) r.
Proof.
  unfold VariableDeclaration. intros H.
  destruct (parent node); try contradiction;
    (split; [auto | now apply declaratorLoop_sound]).
Qed.

(** The loop over declarators none of which has a PascalCase name. *)
Lemma declaratorLoop_plain context rest : forall before,
  forallb (fun decl => negb (pascalNamed decl)) before = true ->
  declaratorLoop context (before ++ rest)
  = (if allow context then [] else flat_map (functionReport context) before)
    ++ declaratorLoop context rest.
Proof.
  induction before as [|decl before IH]; intros H.
  - now destruct (allow context).
  - cbn [forallb] in H. apply andb_true_iff in H. destruct H as [Hd H].
    specialize (IH H). cbn [app declaratorLoop flat_map].
    unfold pascalNamed in Hd. unfold functionReport at 1.
    destruct (id decl) as [name|];
      [|rewrite IH; now destruct (allow context)].
    destruct (init decl) as [ini|];
      [|rewrite IH; now destruct (allow context)].
    apply negb_true_iff in Hd.
    rewrite (@isReactComponent_not_pascal context decl name Hd). cbn [andb negb].
    rewrite IH. unfold messageFor.
    destruct (allow context); cbn [andb negb]; [reflexivity|].
    now destruct (isFunctionValue ini).
Qed.

(** X1.  Every report of the rule comes from a declarator of a statement
    whose parent is the program or an [export]: the declarator binds an
    identifier, the name of the report, to an arrow function or a function
    expression (never to a call), the report stands on that declarator, its
    message id follows the classification of the binding and the flavour of
    the file, and a binding that is not a component is only reported when
    [allowArrowFunctions] is off. *)
Theorem reports_come_from_function_valued_declarators context node r :
  In r (VariableDeclaration context node) ->
  (parent node = Program \/ parent node = ExportNamedDeclaration)
  /\ exists decl e,
       In decl (declarations node)
       /\ r_node r = d_range decl
       /\ id decl = Identifier (r_name r)
       /\ init decl = Some e
       /\ isFunctionValue e = true
       /\ isWrappedCall e = false
       /\ messageId r
          = messageFor context (isReactComponent context decl (r_name r))
       /\ (isReactComponent context decl (r_name r) = false -> allow context = false).
Proof.
  intros Hr.
  destruct (@VariableDeclaration_sound context node r Hr) as [Hparent Hdecl].
  split; [exact Hparent | exact Hdecl].
Qed.

Lemma reports_come_from_function_valued_declarators_witness :
  exists decl e,
    In decl (declarations fooThenBar)
    /\ (6, 24) = d_range decl
    /\ id decl = Identifier "Foo"
    /\ init decl = Some e
    /\ isFunctionValue e = true.
Proof.
  destruct (@reports_come_from_function_valued_declarators jsxFile fooThenBar
              {| r_node := (6, 24); messageId := arrowComponent; r_name := "Foo" |}
              (or_introl eq_refl))
    as (_ & decl & e & H1 & H2 & H3 & H4 & H5 & _).
  exists decl, e. repeat split; assumption.
Defined.

(** X2.  A report with a component message carries a PascalCase name, and
    a report with the message [arrowFunction] carries a name that is not
    PascalCase. *)
Theorem component_report_needs_pascal_name context node r :
  In r (VariableDeclaration context node) ->
  (isComponentMessage (messageId r) = true -> isPascalCase (r_name r) = true)
  /\ (messageId r = arrowFunction -> isPascalCase (r_name r) = false).
Proof.
  intros H.
  destruct (@VariableDeclaration_sound _ _ _ H)
    as (_ & decl & e & _ & _ & _ & _ & _ & _ & Hm & _).
  rewrite Hm. unfold messageFor.
  destruct (isTypeScript context && checkTS context) eqn:Er;
    destruct (isReactComponent context decl (r_name r)) eqn:Ec;
    cbn; split; try discriminate; intros _.
  - now apply (isReactComponent_pascal context decl).
  - now apply (isReactComponent_pascal context decl).
  - now rewrite <- (isReactComponent_baseline context decl _ Er).
Qed.

Lemma component_report_needs_pascal_name_witness :
  isPascalCase "Foo" = true.
Proof.
  exact (proj1 (@component_report_needs_pascal_name jsxFile fooThenBar
                  {| r_node := (6, 24); messageId := arrowComponent; r_name := "Foo" |}
                  (or_introl eq_refl)) eq_refl).
Defined.

(** X3.  A component report ends the callback: one statement yields at
    most one component report, and that report is the last one. *)
Theorem component_report_is_last context node before r after :
  VariableDeclaration context node = before ++ r :: after ->
  isComponentMessage (messageId r) = true ->
  after = []
  /\ Forall (fun r' => isComponentMessage (messageId r') = false) before.
Proof.
  unfold VariableDeclaration.
  assert (Hloop : forall decls before,
             declaratorLoop context decls = before ++ r :: after ->
             isComponentMessage (messageId r) = true ->
             after = []
             /\ Forall (fun r' => isComponentMessage (messageId r') = false) before).
  { clear before. induction decls as [|decl decls IH]; intros before H Hc.
    - destruct before; discriminate.
    - cbn [declaratorLoop] in H.
      destruct (id decl) as [name|]; [|now apply IH].
      destruct (init decl) as [ini|]; [|now apply IH].
      destruct (isReactComponent context decl name); cbn [andb negb] in H.
      + destruct (isWrappedCall ini); [destruct before; discriminate|].
        destruct (isFunctionValue ini); [|now apply IH].
        destruct before as [|b before].
        * injection H as _ <-. split; [reflexivity | constructor].
        * destruct before; discriminate.
      + destruct (allow context); cbn [andb negb] in H; [now apply IH|].
        destruct (isFunctionValue ini); [|now apply IH].
        destruct before as [|b before].
        * injection H as <- _. exfalso. cbn in Hc.
          destruct (isTypeScript context && checkTS context); discriminate.
        * injection H as <- H. destruct (IH _ H Hc) as [Ha Hb].
          split; [assumption|]. constructor; [|assumption]. cbn.
          now destruct (isTypeScript context && checkTS context). }
  intros H Hc. destruct (parent node).
  - now apply (Hloop (declarations node)).
  - now apply (Hloop (declarations node)).
  - destruct before; discriminate.
Qed.

Lemma component_report_is_last_witness :
  @nil Report = []
  /\ Forall (fun r' : Report => isComponentMessage (messageId r') = false) [].
Proof.
  exact (@component_report_is_last jsxFile fooThenBar []
           {| r_node := (6, 24); messageId := arrowComponent; r_name := "Foo" |}
           [] eq_refl eq_refl).
Defined.

(** X4.  In a top-level statement without a PascalCase name no [return] is
    met: with [allowArrowFunctions] off every declarator that binds an
    identifier to an arrow function or a function expression is reported as
    a plain function, in the order of the declarators, and with the option
    on nothing is reported. *)
Theorem plain_functions_are_all_reported context node :
  parent node = Program \/ parent node = ExportNamedDeclaration ->
  forallb (fun decl => negb (pascalNamed decl)) (declarations node) = true ->
  VariableDeclaration context node
  = if allow context then []
    else flat_map (functionReport context) (declarations node).
Proof.
  intros Hp Hn. unfold VariableDeclaration.
  pose proof (@declaratorLoop_plain context [] (declarations node) Hn) as H.
  rewrite !app_nil_r in H.
  destruct Hp as [-> | ->]; exact H.
Qed.

Lemma plain_functions_are_all_reported_witness :
  VariableDeclaration jsxFile helpersStatement
  = [ {| r_node := (6, 24); messageId := arrowFunction; r_name := "helper" |};
      {| r_node := (37, 70); messageId := arrowFunction; r_name := "twice" |} ].
Proof.
  exact (@plain_functions_are_all_reported jsxFile helpersStatement
           (or_introl eq_refl) eq_refl).
Defined.

(** X5.  The first declarator that is classified as a component and is
    initialised with a function, or with a call whose first argument is a
    function, ends the statement: the declarators after it are not looked
    at, whatever they are. *)
Theorem component_declarator_ends_the_statement
        context p before decl name e after :
  forallb (fun d => negb (pascalNamed d)) before = true ->
  id decl = Identifier name ->
  init decl = Some e ->
  isReactComponent context decl name = true ->
  isWrappedCall e || isFunctionValue e = true ->
  VariableDeclaration context
    {| parent := p; declarations := before ++ decl :: after |}
  = VariableDeclaration context
      {| parent := p; declarations := before ++ [decl] |}.
Proof.
  intros Hb Hid Hini Hc Hf. unfold VariableDeclaration. cbn [parent declarations].
  rewrite !(@declaratorLoop_plain context _ before Hb).
  cbn [declaratorLoop]. rewrite Hid, Hini, Hc. cbn [andb].
  destruct (isWrappedCall e); [now destruct p|].
  cbn [orb] in Hf. rewrite Hf. reflexivity.
Qed.

Lemma component_declarator_ends_the_statement_witness :
  VariableDeclaration jsxFile
    {| parent := Program; declarations := [declHelper] ++ declMemo :: [declTwice] |}
  = VariableDeclaration jsxFile
      {| parent := Program; declarations := [declHelper] ++ [declMemo] |}.
Proof.
  exact (@component_declarator_ends_the_statement jsxFile Program [declHelper]
           declMemo "Foo" _ [declTwice] eq_refl eq_refl eq_refl eq_refl eq_refl).
Defined.

End NoArrowComponentsFacts.

(** ** More on rule [no-namespace-import] *)

Module NoNamespaceImportFacts.
Import ESTree NoNamespaceImport.

(** An import info of the state stems from a recorded declaration [n] of
    the file [evs]: it is stored under the module name of [n], keeps the
    node, the names and the flavour [n] was recorded with, and its set of
    properties has no repetition and is empty as long as the info is not
    marked. *)
Definition stems (context : Context) (evs : list Event)
           (kr : string * ImportInfo) : Prop :=
  exists n q,
    In (EImport n) evs
    /\ importRecord context n = Some q
    /\ fst kr = source n
    /\ node (snd kr) = n
    /\ localName (snd kr) = localName q
    /\ libraryName (snd kr) = source n
    /\ isTypeImport (snd kr) = isTypeImport q
    /\ NoDup (namespacedProperties (snd kr))
    /\ (isUsedAsNamespace (snd kr) = false -> namespacedProperties (snd kr) = []).

Definition isMember (ev : Event) : bool :=
  match ev with EMember _ => true | EImport _ => false end.

Definition isImport (ev : Event) : bool :=
  match ev with EImport _ => true | EMember _ => false end.

(** An inline report of a run over [file] stands at a visited member
    access [o.p], and [o] is the local name of a recorded import of the
    file. *)
Definition inlineAt (context : Context) (file : list Event) (r : Report) : Prop :=
  exists m o p n q,
    In (EMember m) file
    /\ object m = Identifier o /\ property m = Identifier p
    /\ In (EImport n) file
    /\ importRecord context n = Some q /\ localName q = o
    /\ r = inlineReport m o p (source n) (isTypeImport q).

(** A summary report of a run over [file] is the summary of an import info
    that stems from a recorded import of the file and is marked as used. *)
Definition summaryAt (context : Context) (file : list Event) (r : Report) : Prop :=
  exists n q imp,
    In (EImport n) file
    /\ importRecord context n = Some q
    /\ node imp = n /\ localName imp = localName q
    /\ isTypeImport imp = isTypeImport q
    /\ isUsedAsNamespace imp = true
    /\ NoDup (namespacedProperties imp)
    /\ r = summaryReport (source n) imp.


(** The type-flavoured message ids. *)
Definition isTypeMessage (m : MessageId) : bool :=
  match m with
  | noTypeNamespaceUsage | noDefaultTypeImportForNamespace => true
  | noNamespaceUsage | noDefaultImportForNamespace => false
  end.

(** A project that targets [moment] and [lodash] and exempts [moment]. *)
Definition allowMoment : Context :=
  {| options := {| allowedLibraries := Some ["moment"];
                   targetLibraries := Some ["moment"; "lodash"];
                   checkTypeScriptTypes := None;
                   allowTypeNamespaces := None |};
     getFilename := "/proj/src/date.js" |}.

(** [import moment from 'moment';] and [import dayjs from 'dayjs';] *)
Definition importMoment : ImportDeclarationNode :=
  {| i_range := (0, 28); source := "moment"; importKind := KindValue;
     specifiers := [ImportDefaultSpecifier "moment"] |}.

Definition importDayjs : ImportDeclarationNode :=
  {| i_range := (29, 55); source := "dayjs"; importKind := KindValue;
     specifiers := [ImportDefaultSpecifier "dayjs"] |}.

(** [import { map } from 'lodash';] *)
Definition importNamedMap : ImportDeclarationNode :=
  {| i_range := (0, 29); source := "lodash"; importKind := KindValue;
     specifiers := [ImportSpecifier "map" "map"] |}.


(** *** Libraries out of scope *)

Lemma shouldCheckLibrary_false context lib :
  shouldCheckLibrary context lib = false <->
  In lib (allowed context) \/ (targets context <> [] /\ ~ In lib (targets context)).
Proof.
  unfold shouldCheckLibrary, shouldCheckAllLibraries.
  destruct (JS.includes (allowed context) lib) eqn:Ea.
  - apply includes_In in Ea. tauto.
  - apply includes_not_In in Ea.
    destruct (targets context) as [|t ts] eqn:Et.
    + cbn. split; [discriminate|]. intros [H | [H _]]; [contradiction | congruence].
    + cbn [orb]. rewrite <- Et. rewrite includes_not_In. split.
      * intros H. right. split; [congruence | assumption].
      * intros [H | [_ H]]; [contradiction | assumption].
Qed.

Lemma importRecord_out_of_scope context n :
  shouldCheckLibrary context (source n) = false -> importRecord context n = None.
Proof. intros H. unfold importRecord. now rewrite H. Qed.

(** X6.  An import from a library that is listed in [allowedLibraries], or
    that is missing from a non-empty [targetLibraries], is never recorded:
    the [ImportDeclaration] callback leaves the state as it is, and the
    reports of the file are those of the file without that import. *)
Theorem exempt_library_is_never_recorded context n :
  In (source n) (allowed context)
  \/ (targets context <> [] /\ ~ In (source n) (targets context)) ->
  (forall st, ImportDeclaration context st n = st)
  /\ (forall pre post,
         lint context (pre ++ EImport n :: post) = lint context (pre ++ post)).
Proof.
  intros H. apply shouldCheckLibrary_false in H.
  pose proof (importRecord_out_of_scope _ _ H) as Hr. split.
  - intros st. unfold ImportDeclaration. now rewrite Hr.
  - intros pre post. now apply lint_skip.
Qed.

Lemma exempt_library_is_never_recorded_witness :
  lint allowMoment [EImport importMoment; EMember (access 60 "moment" "format")]
  = lint allowMoment [EMember (access 60 "moment" "format")]
  /\ lint allowMoment [EImport importDayjs; EMember (access 60 "dayjs" "extend")]
     = lint allowMoment [EMember (access 60 "dayjs" "extend")].
Proof.
  split.
  - refine (proj2 (@exempt_library_is_never_recorded allowMoment importMoment _) [] _).
    left. now left.
  - refine (proj2 (@exempt_library_is_never_recorded allowMoment importDayjs _) [] _).
    right. split; [discriminate|]. simpl. intuition discriminate.
Defined.

(** *** Files without a recorded import *)

Lemma traverse_nothing_recorded context evs :
  (forall n, In (EImport n) evs -> importRecord context n = None) ->
  traverse context [] evs = ([], []).
Proof.
  induction evs as [|ev evs IH]; intros H; [reflexivity|].
  cbn [traverse]. destruct ev as [n | m]; cbn [visit].
  - unfold ImportDeclaration. rewrite (H n (or_introl eq_refl)).
    rewrite IH; [reflexivity|]. intros n' Hn'. apply H. now right.
  - unfold MemberExpression.
    destruct (object m), (property m); cbn [memberLoop];
      (rewrite IH; [reflexivity|]; intros n' Hn'; apply H; now right).
Qed.

(** X7.  When every import of the file either has no default specifier
    or comes from a library out of scope, the rule reports nothing,
    whatever member accesses the file holds. *)
Theorem no_recorded_import_no_report context evs :
  (forall n, In (EImport n) evs ->
             defaultLocal n = None \/ shouldCheckLibrary context (source n) = false) ->
  lint context evs = [].
Proof.
  intros H. unfold lint. rewrite traverse_nothing_recorded; [reflexivity|].
  intros n Hn. destruct (H n Hn) as [Hd | Hs].
  - now apply importRecord_no_default.
  - now apply importRecord_out_of_scope.
Qed.

Lemma no_recorded_import_no_report_witness :
  lint jsFile [EImport importNamedMap; EMember (access 40 "map" "call");
               EMember (access 60 "console" "log")] = [].
Proof.
  apply no_recorded_import_no_report.
  intros n [[= <-] | H]; [now left|].
  simpl in H. repeat (destruct H as [H | H]; [discriminate|]). contradiction.
Defined.

(** X8.  Member accesses that are visited before the first import
    declaration leave no trace: neither a report nor a property in the
    evidence of a later import of that name. *)
Theorem accesses_before_the_imports_are_ignored context pre rest :
  forallb isMember pre = true ->
  lint context (pre ++ rest) = lint context rest.
Proof.
  intros H. unfold lint. rewrite traverse_app, traverse_nothing_recorded.
  - now destruct (traverse context [] rest).
  - intros n Hn. rewrite forallb_forall in H. specialize (H _ Hn). discriminate.
Qed.

Lemma accesses_before_the_imports_are_ignored_witness :
  lint jsFile ([EMember (access 0 "_" "map")]
               ++ [EImport importLodash; EMember (access 60 "_" "chunk")])
  = lint jsFile [EImport importLodash; EMember (access 60 "_" "chunk")].
Proof.
  exact (@accesses_before_the_imports_are_ignored jsFile
           [EMember (access 0 "_" "map")]
           [EImport importLodash; EMember (access 60 "_" "chunk")] eq_refl).
Defined.

(** *** Where the import infos come from *)

Lemma set_add_NoDup set x : NoDup set -> NoDup (JS.set_add set x).
Proof.
  intros H. unfold JS.set_add. destruct (JS.includes set x) eqn:E; [assumption|].
  apply includes_not_In in E. apply NoDup_app; [assumption | | ].
  - repeat constructor. intros [].
  - intros y Hy [<- | []]. contradiction.
Qed.


Section Stems.
Variable context : Context.
Variable file : list Event.

Lemma visit_stems st ev :
  In ev file ->
  Forall (stems context file) (entriesOf st) ->
  Forall (stems context file) (entriesOf (fst (visit context st ev))).
Proof.
  intros Hev Hst. destruct ev as [n | m]; cbn [visit fst].
  - unfold ImportDeclaration.
    destruct (importRecord context n) as [q|] eqn:E; [|assumption].
    destruct (entriesOf_map_push st (source n) q) as (X & Y & H1 & H2).
    rewrite H2. rewrite H1 in Hst. apply Forall_app in Hst. destruct Hst as [HX HY].
    apply Forall_app. split; [assumption|]. constructor; [|assumption].
    destruct (@importRecord_fields _ _ _ E) as (Hn & Hl & Hu & Hp & _ & _).
    exists n, q. cbn [fst snd]. rewrite Hp.
    repeat split; try assumption; try reflexivity. constructor.
  - unfold MemberExpression.
    destruct (object m) as [o|]; [|assumption].
    destruct (property m) as [p|]; [|assumption].
    destruct (memberLoop_cases m o p st)
      as [[_ E] | (b & lib & l1 & i & l2 & a & Hs & Hn & E)]; rewrite E; cbn [fst].
    + assumption.
    + subst st. rewrite entriesOf_middle in *.
      apply Forall_app in Hst. destruct Hst as [H1 H2].
      inversion H2 as [|? ? Hi H3]. apply Forall_app. split; [assumption|].
      constructor; [|assumption].
      destruct Hi as (n & q & F1 & F2 & F3 & F4 & F5 & F6 & F7 & F8 & F9).
      exists n, q. cbn [fst snd markUsed node localName libraryName isTypeImport
                        namespacedProperties isUsedAsNamespace] in *.
      repeat split; try assumption.
      * now apply set_add_NoDup.
      * discriminate.
Qed.

Lemma traverse_stems evs : forall st,
  incl evs file ->
  Forall (stems context file) (entriesOf st) ->
  Forall (stems context file) (entriesOf (fst (traverse context st evs))).
Proof.
  induction evs as [|ev evs IH]; intros st Hin Hst; [assumption|].
  cbn [traverse].
  pose proof (@visit_stems st ev (Hin ev (or_introl eq_refl)) Hst) as H1.
  destruct (visit context st ev) as [st1 r1]. cbn [fst] in H1.
  assert (Hin' : incl evs file) by (intros x Hx; apply Hin; now right).
  specialize (IH st1 Hin' H1).
  now destruct (traverse context st1 evs).
Qed.

Lemma traverse_inlineAt evs : forall st r,
  incl evs file ->
  Forall (stems context file) (entriesOf st) ->
  In r (snd (traverse context st evs)) -> inlineAt context file r.
Proof.
  induction evs as [|ev evs IH]; intros st r Hin Hst Hr; [contradiction|].
  cbn [traverse] in Hr.
  pose proof (@visit_stems st ev (Hin ev (or_introl eq_refl)) Hst) as H1.
  assert (Hin' : incl evs file) by (intros x Hx; apply Hin; now right).
  assert (Hv : In r (snd (visit context st ev)) -> inlineAt context file r).
  { clear IH Hr. destruct ev as [n | m]; cbn [visit snd]; [contradiction|].
    unfold MemberExpression.
    destruct (object m) as [o|] eqn:Eo; [|contradiction].
    destruct (property m) as [p|] eqn:Ep; [|contradiction].
    destruct (memberLoop_cases m o p st)
      as [[_ E] | (b & lib & l1 & i & l2 & a & Hs & Hn & E)]; rewrite E; cbn [snd].
    - contradiction.
    - intros [<- | []]. subst st. rewrite entriesOf_middle in Hst.
      apply Forall_app in Hst. destruct Hst as [_ H2].
      inversion H2 as [|? ? Hi _].
      destruct Hi as (n & q & F1 & F2 & F3 & F4 & F5 & F6 & F7 & _).
      cbn [fst snd] in *. exists m, o, p, n, q.
      rewrite F3, F7. repeat split; try assumption.
      + apply Hin. now left.
      + congruence. }
  destruct (visit context st ev) as [st1 r1]. cbn [fst snd] in *.
  specialize (IH st1 r Hin' H1).
  destruct (traverse context st1 evs) as [st2 r2]. cbn [snd] in *.
  apply in_app_or in Hr. destruct Hr as [Hr | Hr]; auto.
Qed.
End Stems.

Lemma lint_provenance context evs r :
  In r (lint context evs) ->
  (isInline r = true -> inlineAt context evs r)
  /\ (isInline r = false -> summaryAt context evs r).
Proof.
  intros Hr. unfold lint in Hr.
  pose proof (@traverse_stems context evs evs [] (incl_refl _) (Forall_nil _)) as Hst.
  pose proof (@traverse_inlineAt context evs evs [] r (incl_refl _) (Forall_nil _))
    as Hin.
  destruct (traverse context [] evs) as [st rs]. cbn [fst snd] in *.
  apply in_app_or in Hr. destruct Hr as [Hr | Hr].
  - destruct (Hin Hr) as (m & o & p & n & q & H). split.
    + intros _. now exists m, o, p, n, q.
    + destruct H as (_ & _ & _ & _ & _ & _ & ->). intros Hf. exfalso.
      unfold isInline, inlineReport in Hf. cbn in Hf.
      destruct (isTypeImport q); discriminate.
  - rewrite ProgramExit_entriesOf in Hr. apply in_flat_map in Hr.
    destruct Hr as [[k imp] [Hk Hr]]. cbn [fst snd] in Hr.
    destruct (isUsedAsNamespace imp) eqn:Eu; [|contradiction].
    destruct Hr as [<- | []]. split.
    + rewrite isInline_summary. discriminate.
    + intros _. rewrite Forall_forall in Hst.
      destruct (Hst _ Hk) as (n & q & F1 & F2 & F3 & F4 & F5 & F6 & F7 & F8 & _).
      cbn [fst snd] in *. exists n, q, imp. subst k.
      repeat split; assumption.
Qed.

(** X9.  Every report of a run stands at a visited node.  An inline report
    is the report of a visited member access [o.p] where [o] is the local
    name of a recorded import of the file; a summary report is the summary
    of the import info of a recorded import that was marked as used, and
    the set of properties of that info has no repetition. *)
Theorem reports_stand_at_visited_nodes context evs r :
  In r (lint context evs) ->
  (isInline r = true ->
   exists m o p n q,
     In (EMember m) evs
     /\ object m = Identifier o /\ property m = Identifier p
     /\ In (EImport n) evs
     /\ importRecord context n = Some q /\ localName q = o
     /\ r = inlineReport m o p (source n) (isTypeImport q))
  /\ (isInline r = false ->
      exists n q imp,
        In (EImport n) evs
        /\ importRecord context n = Some q
        /\ node imp = n /\ localName imp = localName q
        /\ isTypeImport imp = isTypeImport q
        /\ isUsedAsNamespace imp = true
        /\ NoDup (namespacedProperties imp)
        /\ r = summaryReport (source n) imp).
Proof.
  intros Hr.
  destruct (@lint_provenance context evs r Hr) as [Hinline Hsummary].
  split; [exact Hinline | exact Hsummary].
Qed.

Lemma reports_stand_at_visited_nodes_witness :
  exists m o p n q,
    In (EMember m) (EImport importLodash :: fourAccesses)
    /\ object m = Identifier o /\ property m = Identifier p
    /\ In (EImport n) (EImport importLodash :: fourAccesses)
    /\ importRecord jsFile n = Some q /\ localName q = o
    /\ inlineReport (access 60 "_" "map") "_" "map" "lodash" false
       = inlineReport m o p (source n) (isTypeImport q).
Proof.
  exact (proj1 (@reports_stand_at_visited_nodes jsFile
                  (EImport importLodash :: fourAccesses)
                  (inlineReport (access 60 "_" "map") "_" "map" "lodash" false)
                  (or_introl eq_refl)) eq_refl).
Defined.

(** *** Flavour of the messages *)

(** X10.  A report with a type-flavoured message id is only produced in a
    TypeScript file with [checkTypeScriptTypes] on and [allowTypeNamespaces]
    off, and the file then holds a recorded [import type] declaration. *)
Theorem type_messages_need_a_checked_type_import context evs r :
  In r (lint context evs) ->
  isTypeMessage (messageId r) = true ->
  isTypeScript context = true
  /\ checkTypes context = true
  /\ allowTypeNS context = false
  /\ exists n q,
       In (EImport n) evs /\ importKind n = KindType
       /\ importRecord context n = Some q /\ isTypeImport q = true.
Proof.
  intros Hr Hm.
  destruct (@lint_provenance _ _ _ Hr) as [Hi Hs].
  assert (Hq : exists n q, In (EImport n) evs /\ importRecord context n = Some q
                           /\ isTypeImport q = true).
  { destruct (isInline r) eqn:E.
    - destruct (Hi eq_refl) as (m & o & p & n & q & _ & _ & _ & Hn & Hq & _ & ->).
      exists n, q. cbn in Hm. destruct (isTypeImport q); [|discriminate].
      repeat split; assumption.
    - destruct (Hs eq_refl) as (n & q & imp & Hn & Hq & _ & _ & Ht & _ & _ & ->).
      exists n, q. cbn in Hm. rewrite Ht in Hm.
      destruct (isTypeImport q); [|discriminate].
      repeat split; assumption. }
  destruct Hq as (n & q & Hn & Hq & Ht).
  destruct (@importRecord_fields _ _ _ Hq) as (_ & _ & _ & _ & _ & Hty).
  rewrite Ht in Hty. symmetry in Hty.
  apply andb_true_iff in Hty. destruct Hty as [Hty Hk].
  apply andb_true_iff in Hty. destruct Hty as [Hts Hck].
  split; [assumption|]. split; [assumption|]. split.
  - unfold importRecord in Hq.
    destruct (negb (shouldCheckLibrary context (source n))); [discriminate|].
    destruct (find isDefaultSpecifier (specifiers n)) as [[l | |]|]; try discriminate.
    rewrite Hts, Hck, Hk in Hq. cbn [andb] in Hq.
    destruct (allowTypeNS context); [discriminate | reflexivity].
  - exists n, q. repeat split; try assumption.
    destruct (importKind n); [discriminate | reflexivity].
Qed.

Lemma type_messages_need_a_checked_type_import_witness :
  isTypeScript (tsFile (Some true) (Some false)) = true
  /\ checkTypes (tsFile (Some true) (Some false)) = true
  /\ allowTypeNS (tsFile (Some true) (Some false)) = false
  /\ exists n q,
       In (EImport n) [EImport importTypeReact; EMember (access 40 "React" "useState")]
       /\ importKind n = KindType
       /\ importRecord (tsFile (Some true) (Some false)) n = Some q
       /\ isTypeImport q = true.
Proof.
  exact (@type_messages_need_a_checked_type_import (tsFile (Some true) (Some false))
           [EImport importTypeReact; EMember (access 40 "React" "useState")]
           (inlineReport (access 40 "React" "useState") "React" "useState" "react" true)
           (or_introl eq_refl) eq_refl).
Defined.

(** *** Order and number of the reports *)

Lemma length_entriesOf_map_push st k q :
  List.length (entriesOf (map_push st k q)) = S (List.length (entriesOf st)).
Proof.
  destruct (entriesOf_map_push st k q) as (X & Y & H1 & H2).
  rewrite H1, H2, !List.length_app. cbn [List.length]. lia.
Qed.

Lemma visit_counts context st ev :
  List.length (snd (visit context st ev)) <= (if isMember ev then 1 else 0)
  /\ List.length (entriesOf (fst (visit context st ev)))
     <= List.length (entriesOf st) + (if isImport ev then 1 else 0).
Proof.
  destruct ev as [n | m]; cbn [visit fst snd isMember isImport List.length].
  - split; [lia|]. unfold ImportDeclaration.
    destruct (importRecord context n); [rewrite length_entriesOf_map_push|]; lia.
  - unfold MemberExpression.
    destruct (object m) as [o|]; [|cbn [fst snd List.length]; lia].
    destruct (property m) as [p|]; [|cbn [fst snd List.length]; lia].
    destruct (memberLoop_cases m o p st)
      as [[_ E] | (b & lib & l1 & i & l2 & a & Hs & _ & E)]; rewrite E; cbn [fst snd].
    + cbn [List.length]. lia.
    + subst st. rewrite !entriesOf_middle, !List.length_app. cbn [List.length]. lia.
Qed.

Lemma traverse_counts context evs : forall st,
  List.length (snd (traverse context st evs)) <= List.length (filter isMember evs)
  /\ List.length (entriesOf (fst (traverse context st evs)))
     <= List.length (entriesOf st) + List.length (filter isImport evs).
Proof.
  induction evs as [|ev evs IH]; intros st; cbn [traverse filter].
  - cbn [fst snd List.length]. lia.
  - pose proof (visit_counts context st ev) as [H1 H2].
    destruct (visit context st ev) as [st1 r1]. cbn [fst snd] in *.
    specialize (IH st1). destruct (traverse context st1 evs) as [st2 r2].
    cbn [fst snd] in *. rewrite List.length_app.
    destruct ev; cbn [isMember isImport List.length] in *; lia.
Qed.

Lemma length_ProgramExit st :
  List.length (ProgramExit st) <= List.length (entriesOf st).
Proof.
  rewrite ProgramExit_entriesOf.
  induction (entriesOf st) as [|kr l IH]; [reflexivity|].
  cbn [flat_map]. rewrite List.length_app.
  destruct (isUsedAsNamespace (snd kr)); cbn [List.length]; lia.
Qed.

Lemma filter_all (A : Type) (f : A -> bool) l :
  (forall x, In x l -> f x = true) -> filter f l = l.
Proof.
  induction l as [|x l IH]; intros H; [reflexivity|]. cbn [filter].
  rewrite (H x (or_introl eq_refl)), IH; [reflexivity|].
  intros y Hy. apply H. now right.
Qed.

Lemma filter_none (A : Type) (f : A -> bool) l :
  (forall x, In x l -> f x = false) -> filter f l = [].
Proof.
  induction l as [|x l IH]; intros H; [reflexivity|]. cbn [filter].
  rewrite (H x (or_introl eq_refl)). apply IH. intros y Hy. apply H. now right.
Qed.

(** X11.  The reports of a file are the inline reports followed by the
    summary reports; there are at most as many inline reports as member
    accesses visited, and at most as many summary reports as import
    declarations visited. *)
Theorem inline_reports_come_first context evs :
  lint context evs
  = filter isInline (lint context evs)
    ++ filter (fun r => negb (isInline r)) (lint context evs)
  /\ List.length (filter isInline (lint context evs))
     <= List.length (filter isMember evs)
  /\ List.length (filter (fun r => negb (isInline r)) (lint context evs))
     <= List.length (filter isImport evs).
Proof.
  unfold lint.
  pose proof (@traverse_reports_inline context evs []) as Hin.
  pose proof (traverse_counts context evs []) as [Hc1 Hc2].
  destruct (traverse context [] evs) as [st rs]. cbn [fst snd] in *.
  assert (Hrs : forall r, In r rs -> isInline r = true).
  { intros r Hr. destruct (Hin r Hr) as (m & o & p & lib & ty & ->).
    now destruct ty. }
  assert (Hex : forall r, In r (ProgramExit st) -> isInline r = false).
  { intros r Hr. destruct (@ProgramExit_spec _ _ Hr) as (lib & imp & _ & _ & ->).
    apply isInline_summary. }
  rewrite !filter_app.
  rewrite (filter_all isInline rs Hrs), (filter_none isInline (ProgramExit st) Hex).
  rewrite (@filter_none _ (fun r => negb (isInline r)) rs),
          (@filter_all _ (fun r => negb (isInline r)) (ProgramExit st)).
  - rewrite app_nil_r. cbn [app]. split; [reflexivity|]. split; [assumption|].
    pose proof (length_ProgramExit st) as Hex'.
    change (entriesOf []) with (@nil (string * ImportInfo)) in Hc2.
    cbn [List.length] in Hc2. lia.
  - intros r Hr. now rewrite (Hex r Hr).
  - intros r Hr. now rewrite (Hrs r Hr).
Qed.

(** *** The names of the rewritten import *)





Section Observed.
Variable context : Context.
Variable file : list Event.


End Observed.





(** *** The inline fix *)

(** X13.  The fix of an inline report replaces the text of the member
    expression by the name of the property alone. *)
Theorem inline_fix_leaves_the_property_name context evs r :
  In r (lint context evs) ->
  isInline r = true ->
  exists m p,
    In (EMember m) evs
    /\ property m = Identifier p
    /\ r_node r = m_range m
    /\ fix_ r = ReplaceText (m_range m) p
    /\ forall before expr after,
         m_range m = (String.length before, String.length before + String.length expr) ->
         applyFix (before ++ expr ++ after)%string (fix_ r)
         = (before ++ p ++ after)%string.
Proof.
  intros Hr Hi.
  destruct (proj1 (@lint_provenance _ _ _ Hr) Hi)
    as (m & o & p & n & q & Hm & _ & Hp & _ & _ & _ & ->).
  exists m, p. cbn [r_node fix_ inlineReport]. repeat split; try assumption.
  intros before expr after ->. cbn [applyFix].
  apply EnforcePathAlias.splice_middle.
Qed.

Lemma inline_fix_leaves_the_property_name_witness :
  exists m p,
    In (EMember m) (EImport importLodash :: fourAccesses)
    /\ property m = Identifier p
    /\ (60, 65) = m_range m
    /\ ReplaceText (60, 65) "map" = ReplaceText (m_range m) p.
Proof.
  destruct (@inline_fix_leaves_the_property_name jsFile
              (EImport importLodash :: fourAccesses)
              (inlineReport (access 60 "_" "map") "_" "map" "lodash" false)
              (or_introl eq_refl) eq_refl) as (m & p & H1 & H2 & H3 & H4 & _).
  exists m, p. repeat split; assumption.
Defined.

End NoNamespaceImportFacts.

(** ** More on rule [enforce-path-alias] *)

Module EnforcePathAliasFacts.
Import ESTree EnforcePathAlias.

(** The path an import resolves to, and that path as seen from the working
    directory. *)
Definition resolvedImportPath (context : Context) (importPath : string) : string :=
  NodePath.resolve (getCwd context)
                   [NodePath.dirname (getFilename context); importPath].

Definition relativeToCwd (context : Context) (importPath : string) : string :=
  NodePath.relative (getCwd context) (getCwd context)
                    (resolvedImportPath context importPath).

(** [require(...)] with one literal argument that is not a string. *)
Definition requiresNonString (n : CallExpressionNode) : Prop :=
  callee_name n = Some "require"
  /\ exists l, arguments n = [LiteralArg l] /\ value l = OtherValue.

(** The base directory the project config declares, if it can be read. *)
Definition configuredBaseUrl (context : Context) : option string :=
  match fs context (NodePath.join [getCwd context; configFile_ context]) with
  | Some (File _ (Some t)) => configBaseUrl t
  | _ => None
  end.

(** The alias object the scan finds in the bundler config at [p], if any. *)
Definition viteAliasesAt (scan : string -> list PathMappings) (context : Context)
           (p : string) : option PathMappings :=
  match fs context p with
  | Some (File text _) => find nonEmpty (scan text)
  | _ => None
  end.

Definition viteCandidates (context : Context) : list string :=
  [NodePath.join [getCwd context; "vite.config.js"];
   NodePath.join [getCwd context; "vite.config.ts"];
   NodePath.join [getCwd context; "vite.config.mjs"];
   NodePath.join [getCwd context; "vite.config.mts"]].

Definition keys (o : PathMappings) : list string := map fst o.

(** [require(42)] and [require("../utils/helpers")] *)
Definition requireNumber : CallExpressionNode :=
  {| callee_name := Some "require";
     arguments := [LiteralArg {| l_range := (8, 10); value := OtherValue; raw := "42" |}] |}.

Definition buttonVisitor : Visitor :=
  {| finalBaseUrl := "./src";
     aliasPatterns := [ {| alias := "@"; targetPath := "/proj/src" |} ] |}.

(** A project with [src/] and a [vite.config.ts] only. *)
Definition viteFs : FileSystem :=
  fun p =>
    if String.eqb p "/proj/src" then Some (Directory ["main.ts"])
    else if String.eqb p "/proj/vite.config.ts"
         then Some (File "alias: { '@app': './src' }" None)
    else None.

(** What the scan finds in that text: the first block pattern matches, and
    the entry pattern for a quoted path reads the key [@app] and the path
    [./src]. *)
Definition viteScan : string -> list PathMappings :=
  fun text =>
    if String.eqb text "alias: { '@app': './src' }"
    then [[("@app/*", ["./src/*"])]]
    else [].

Definition viteProject : Context :=
  {| options := defaultOptions;
     getFilename := "/proj/src/main.ts";
     getCwd := "/proj";
     fs := viteFs |}.

(** The file passes the two early returns of [create]. *)
Definition supportedFile (context : Context) : Prop :=
  isDeclarationFile context && negb (includeDeclarationFiles_ context) = false
  /\ exists c r,
       find (fun ext => JS.endsWith (filename context) ext)
            (supportedExtensions_ context) = Some (String c r).

(** [options.baseUrl] is falsy. *)
Definition noUserBaseUrl (context : Context) : Prop :=
  userBaseUrl context = None \/ userBaseUrl context = Some "".

(** The mappings of the project config and its references; empty when the
    config file does not exist. *)
Definition configMappings (context : Context) : PathMappings :=
  let tsconfigPath := NodePath.join [getCwd context; configFile_ context] in
  match fs context tsconfigPath with
  | Some _ => fst (resolveProjectReferences context tsconfigPath)
  | None => []
  end.

Definition isDirectory (context : Context) (p : string) : bool :=
  match fs context p with Some (Directory _) => true | _ => false end.

(** The literal a callback looks at, with the path it holds. *)
Definition visitedLiteral (ev : Event) (target : Range) (importPath : string) : Prop :=
  match ev with
  | EImport n => target = source_range n /\ importPath = source_value n
  | ECall n =>
      callee_name n = Some "require"
      /\ exists l, arguments n = [LiteralArg l]
                   /\ target = l_range l /\ value l = StringValue importPath
  end.

(** A project with [lib/] and [app/], and no [src/]. *)
Definition libAppFs : FileSystem :=
  fun p =>
    if String.eqb p "/proj/lib" then Some (Directory ["index.ts"])
    else if String.eqb p "/proj/app" then Some (Directory [])
    else None.

Definition libAppFile (name : string) : Context :=
  {| options := defaultOptions; getFilename := name; getCwd := "/proj"; fs := libAppFs |}.

(** A project whose config declares [baseUrl: "."], next to a [src/]. *)
Definition rootBaseConfig : TsConfig :=
  {| compilerOptions := Some {| baseUrl := Some "."; paths := None |};
     references := None |}.

Definition rootBaseFs : FileSystem :=
  fun p =>
    if String.eqb p "/proj/tsconfig.json" then Some (File "{ base }" (Some rootBaseConfig))
    else if String.eqb p "/proj/src" then Some (Directory ["main.ts"])
    else None.

Definition rootBaseProject : Context :=
  {| options := defaultOptions; getFilename := "/proj/src/main.ts";
     getCwd := "/proj"; fs := rootBaseFs |}.


(** *** When nothing is reported *)

Lemma findMatchingAliasLoop_none context resolved patterns :
  findMatchingAliasLoop context resolved patterns = None <->
  forall p, In p patterns -> JS.startsWith resolved (targetPath p) = false.
Proof.
  induction patterns as [|q ps IH]; cbn [findMatchingAliasLoop].
  - split; [intros _ p [] | reflexivity].
  - destruct (JS.startsWith resolved (targetPath q)) eqn:E.
    + split; [discriminate|]. intros H. specialize (H q (or_introl eq_refl)). congruence.
    + rewrite IH. split.
      * intros H p [<- | Hp]; [assumption | now apply H].
      * intros H p Hp. apply H. now right.
Qed.

Lemma checkPath_not_relative context v kind target importPath :
  JS.startsWith importPath "../" = false ->
  JS.startsWith importPath "./" = false ->
  checkPath context v kind target importPath = [].
Proof. intros H1 H2. unfold checkPath, shouldUseAlias. now rewrite H1, H2. Qed.

Lemma checkPath_excluded context v kind target importPath excludeFolder :
  In excludeFolder (excludeFolders context) ->
  JS.startsWith (relativeToCwd context importPath) excludeFolder = true ->
  checkPath context v kind target importPath = [].
Proof.
  intros Hin Hex. unfold checkPath, shouldUseAlias.
  destruct (negb (JS.startsWith importPath "../")
            && negb (JS.startsWith importPath "./")); [reflexivity|].
  assert (He : existsb (fun excludeFolder =>
                          JS.startsWith
                            (NodePath.relative (getCwd context) (getCwd context)
                               (NodePath.resolve (getCwd context)
                                  [NodePath.dirname (getFilename context); importPath]))
                            excludeFolder)
                       (excludeFolders context) = true).
  { apply existsb_exists. exists excludeFolder. split; assumption. }
  now rewrite He.
Qed.

Lemma checkPath_no_pattern context v kind target importPath :
  (forall p, In p (aliasPatterns v) ->
             JS.startsWith (resolvedImportPath context importPath) (targetPath p)
             = false) ->
  checkPath context v kind target importPath = [].
Proof.
  intros Hp. unfold checkPath, resolvedImportPath in *.
  pose proof (proj2 (findMatchingAliasLoop_none context _ (aliasPatterns v)) Hp) as Hn.
  unfold findMatchingAlias. rewrite Hn.
  now destruct (shouldUseAlias context v importPath (getFilename context)).
Qed.

(** X14.  The rule reports nothing for a path that starts with neither
    [./] nor [../], for a path whose target, seen from the working
    directory, starts with one of the excluded folders, and for a path whose
    resolved target starts with the target of no alias pattern. *)
Theorem unreported_paths context v kind target importPath :
  (JS.startsWith importPath "../" = false /\ JS.startsWith importPath "./" = false)
  \/ (exists excludeFolder,
         In excludeFolder (excludeFolders context)
         /\ JS.startsWith (relativeToCwd context importPath) excludeFolder = true)
  \/ (forall p, In p (aliasPatterns v) ->
                JS.startsWith (resolvedImportPath context importPath) (targetPath p)
                = false) ->
  checkPath context v kind target importPath = [].
Proof.
  intros [[H1 H2] | [(ex & Hin & Hex) | Hp]].
  - now apply checkPath_not_relative.
  - now apply checkPath_excluded with (excludeFolder := ex).
  - now apply checkPath_no_pattern.
Qed.

Lemma unreported_paths_witness :
  checkPath (buttonFile [("@/*", ["./*"])]) buttonVisitor "import" (24, 31) "react" = []
  /\ checkPath (buttonFile [("@/*", ["./*"])])
               {| finalBaseUrl := "./src"; aliasPatterns := [] |}
               "import" (24, 42) "../utils/helpers" = [].
Proof.
  split.
  - apply unreported_paths. left. split; reflexivity.
  - apply unreported_paths. right. right. intros p [].
Defined.

(** X15.  The patterns are tried in the order of the mapping: the first
    one whose target is a prefix of the resolved path supplies the alias,
    made of the alias of the pattern, a slash and the path from the target
    of the pattern to the resolved path, every backslash turned into a
    slash. *)
Theorem first_matching_pattern_wins context resolved before p after :
  (forall q, In q before -> JS.startsWith resolved (targetPath q) = false) ->
  JS.startsWith resolved (targetPath p) = true ->
  findMatchingAliasLoop context resolved (before ++ p :: after)
  = Some (slashes (alias p ++ "/"
                   ++ NodePath.relative (getCwd context) (targetPath p) resolved)%string).
Proof.
  intros Hb Hp. induction before as [|q before IH]; cbn [app findMatchingAliasLoop].
  - now rewrite Hp.
  - rewrite (Hb q (or_introl eq_refl)). apply IH. intros q' Hq'. apply Hb. now right.
Qed.

Lemma first_matching_pattern_wins_witness :
  findMatchingAliasLoop (buttonFile []) "/proj/src/utils/helpers"
    ([ {| alias := "@lib"; targetPath := "/proj/lib" |} ]
     ++ {| alias := "@"; targetPath := "/proj/src" |}
     :: [ {| alias := "@utils"; targetPath := "/proj/src/utils" |} ])
  = Some "@/utils/helpers".
Proof.
  refine (@first_matching_pattern_wins (buttonFile []) "/proj/src/utils/helpers"
            [ {| alias := "@lib"; targetPath := "/proj/lib" |} ]
            {| alias := "@"; targetPath := "/proj/src" |}
            [ {| alias := "@utils"; targetPath := "/proj/src/utils" |} ] _ eq_refl).
  intros q [<- | []]. reflexivity.
Defined.


(** *** [require] with a literal that is not a string *)

(** X16.  A [require] call whose single argument is a literal that is not
    a string makes the callback throw a [TypeError], the rule calling
    [startsWith] on the value: the run over a file that holds such a call
    yields no report list. *)
Theorem require_of_non_string_throws context v evs n :
  In (ECall n) evs -> requiresNonString n ->
  visitAll context v evs = TypeError.
Proof.
  intros Hin (Hc & l & Ha & Hv).
  induction evs as [|ev evs IH]; [contradiction|].
  cbn [visitAll]. destruct Hin as [-> | Hin].
  - unfold CallExpression. rewrite Hc, Ha, Hv. reflexivity.
  - rewrite (IH Hin).
    destruct ev as [n' | n']; [reflexivity|]. unfold CallExpression.
    destruct (callee_name n'); [|reflexivity].
    destruct (arguments n') as [|[l'|] [|]]; try reflexivity.
    destruct (String.eqb _ _); [|reflexivity].
    now destruct (value l').
Qed.

Lemma require_of_non_string_throws_witness :
  visitAll (buttonFile [("@/*", ["./*"])]) buttonVisitor
           [EImport importHelpers; ECall requireNumber] = TypeError.
Proof.
  apply (@require_of_non_string_throws _ _ _ requireNumber).
  - right. now left.
  - split; [reflexivity|]. eexists. split; reflexivity.
Defined.

(** *** Running the rule on its own fix *)

Lemma prefix_dot s rest :
  String.prefix (String "." rest) s = true -> String.prefix "." s = true.
Proof.
  destruct s as [|c s]; cbn [String.prefix]; [discriminate|].
  destruct (ascii_dec "." c); [|discriminate]. intros _. now destruct s.
Qed.

Lemma slashes_not_dot al rest :
  JS.startsWith al "." = false ->
  String.prefix "." (slashes (al ++ String "/" rest)) = false.
Proof.
  unfold JS.startsWith. destruct al as [|c al]; intros H.
  - cbn. destruct (ascii_dec "." "/"); [discriminate | reflexivity].
  - cbn [append slashes String.prefix] in *.
    destruct (ascii_dec "." c) as [<- | Hc].
    + destruct al; discriminate.
    + destruct (Ascii.eqb c "\") eqn:E.
      * destruct (ascii_dec "." "/"); [discriminate | reflexivity].
      * destruct (ascii_dec "." c); [contradiction | reflexivity].
Qed.

(** X17.  When no alias starts with a dot, the path the fix writes is not
    reported again: it starts with neither [./] nor [../], so a later run
    leaves it alone, whatever the configuration. *)
Theorem fixed_path_is_not_reported_again context v kind target importPath r :
  (forall p, In p (aliasPatterns v) -> JS.startsWith (alias p) "." = false) ->
  In r (checkPath context v kind target importPath) ->
  exists suggestedAlias,
    fix_ r = ReplaceText target ("'" ++ suggestedAlias ++ "'")%string
    /\ forall context' v' kind' target',
         checkPath context' v' kind' target' suggestedAlias = [].
Proof.
  intros Hal Hr.
  destruct (@checkPath_spec context v kind target importPath r Hr)
    as (_ & p & a & Hp & _ & Ha & _ & Hfix & _).
  exists a. split; [assumption|]. intros context' v' kind' target'.
  assert (Hd : String.prefix "." a = false).
  { rewrite Ha. apply slashes_not_dot. now apply Hal. }
  apply checkPath_not_relative; unfold JS.startsWith.
  - destruct (String.prefix "../" a) eqn:E; [|reflexivity].
    apply prefix_dot in E. congruence.
  - destruct (String.prefix "./" a) eqn:E; [|reflexivity].
    apply prefix_dot in E. congruence.
Qed.

Lemma fixed_path_is_not_reported_again_witness :
  exists suggestedAlias,
    ReplaceText (24, 42) "'@/utils/helpers'"
    = ReplaceText (24, 42) ("'" ++ suggestedAlias ++ "'")%string
    /\ forall context' v' kind' target',
         checkPath context' v' kind' target' suggestedAlias = [].
Proof.
  refine (@fixed_path_is_not_reported_again (buttonFile [("@/*", ["./*"])])
            buttonVisitor "import" (24, 42) "../utils/helpers"
            {| r_node := (24, 42);
               message := "Use path alias '@/utils/helpers' instead of relative import '../utils/helpers'";
               fix_ := ReplaceText (24, 42) "'@/utils/helpers'" |} _ _).
  - intros p [<- | []]. reflexivity.
  - left. reflexivity.
Defined.

Lemma fst_bind (A B : Type) (m : IO A) (f : A -> IO B) :
  fst (bind m f) = fst (f (fst m)).
Proof. unfold bind. destruct m as [a l1]. cbn [fst]. now destruct (f a). Qed.

(** *** [create] *)

Lemma createAliasPatterns_spec regExpCompiles context base pm :
  createAliasPatterns regExpCompiles context base pm
  = if forallb (fun entry : string * list string =>
                  regExpCompiles
                    ("^" ++ replaceFirst "*" ".*" (replaceFirst "/*" "" (fst entry)))%string)
               pm
    then Some (map (fun entry : string * list string =>
                      {| alias := replaceFirst "/*" "" (fst entry);
                         targetPath :=
                           NodePath.resolve (getCwd context)
                             [getCwd context; base;
                              match snd entry with
                              | t :: _ => replaceFirst "/*" "" t
                              | [] => ""
                              end] |})
                   pm)
    else None.
Proof.
  induction pm as [|[al tgts] pm IH]; [reflexivity|].
  cbn [createAliasPatterns forallb map fst snd]. unfold aliasRegexSource.
  destruct (regExpCompiles _); [|reflexivity]. cbn [andb].
  rewrite IH. now destruct (forallb _ pm).
Qed.

(** X18.  With both [paths] and a non-empty [baseUrl] in the options,
    [create] does not touch the file system on a supported file.  When the
    pattern [new RegExp] is called with compiles for every alias, it
    returns the callbacks over the base of the option and one pattern per
    entry of [paths], in order: the alias is the key without its first
    [/*], the target is [path.resolve(cwd, base, t)] for the first target
    without its first [/*].  When the pattern of some alias does not
    compile, [create] throws. *)
Theorem explicit_options_need_no_file_access scan regExpCompiles context pm c r :
  supportedFile context ->
  manualPaths context = Some pm ->
  userBaseUrl context = Some (String c r) ->
  create scan regExpCompiles context
  = (if forallb (fun entry : string * list string =>
                   regExpCompiles
                     ("^" ++ replaceFirst "*" ".*" (replaceFirst "/*" "" (fst entry)))%string)
                pm
     then Callbacks
            (Some {| finalBaseUrl := String c r;
                     aliasPatterns :=
                       map (fun entry : string * list string =>
                              {| alias := replaceFirst "/*" "" (fst entry);
                                 targetPath :=
                                   NodePath.resolve (getCwd context)
                                     [getCwd context; String c r;
                                      match snd entry with
                                      | t :: _ => replaceFirst "/*" "" t
                                      | [] => ""
                                      end] |})
                           pm |})
     else InvalidRegExp,
     []).
Proof.
  intros [Hd (c' & r' & Hext)] Hp Hb. unfold create.
  rewrite Hd, Hext. unfold detectBaseUrl, getPathMappings. rewrite Hp, Hb.
  cbn [bind ret app]. rewrite createAliasPatterns_spec.
  now destruct (forallb _ pm).
Qed.

(** The mapping [{"@/*": ["./*"]}], and the mapping [{"c++/*": ["./*"]}]
    whose pattern [^c++] no engine compiles. *)
Lemma explicit_options_need_no_file_access_witness :
  create noScan plainPattern (buttonFile [("@/*", ["./*"])])
  = (Callbacks
       (Some {| finalBaseUrl := "./src";
                aliasPatterns := [ {| alias := "@"; targetPath := "/proj/src" |} ] |}),
     [])
  /\ create noScan plainPattern (buttonFile [("c++/*", ["./*"])])
     = (InvalidRegExp, []).
Proof.
  split.
  - apply (@explicit_options_need_no_file_access noScan plainPattern
             (buttonFile [("@/*", ["./*"])]) [("@/*", ["./*"])] "."%char "/src");
      [|reflexivity|reflexivity].
    split; [reflexivity|]. exists "."%char, "tsx". reflexivity.
  - apply (@explicit_options_need_no_file_access noScan plainPattern
             (buttonFile [("c++/*", ["./*"])]) [("c++/*", ["./*"])] "."%char "/src");
      [|reflexivity|reflexivity].
    split; [reflexivity|]. exists "."%char, "tsx". reflexivity.
Defined.



(** *** [detectBaseUrl] *)

(** X20.  Without a [baseUrl] option, a truthy [compilerOptions.baseUrl] of
    a readable project config is the base directory, whatever directories
    exist. *)
Theorem configured_base_url_beats_the_directories context b :
  noUserBaseUrl context ->
  configuredBaseUrl context = Some b ->
  fst (detectBaseUrl context) = b.
Proof.
  intros Hu Hc. unfold detectBaseUrl, configuredBaseUrl in *.
  assert (Hgoal :
    fst (e <- fs_existsSync context (NodePath.join [getCwd context; configFile_ context]) ;;
         fromConfig <- (if e then
                          t <- readJSON context
                                 (NodePath.join [getCwd context; configFile_ context]) ;;
                          ret (match t with
                               | Some t => configBaseUrl t
                               | None => None
                               end)
                        else ret None) ;;
         match fromConfig with
         | Some b => ret b
         | None =>
             probeCommonDirs context
               (if isTypeScript context
                then ["src"; "lib"; "app"; "."]
                else ["src"; "app"; "lib"; "."])
         end)%io = b).
  { rewrite fst_bind. unfold fs_existsSync, readJSON. cbn [fst].
    destruct (fs context (NodePath.join [getCwd context; configFile_ context]))
      as [[text [t|] | names]|]; try discriminate.
    rewrite fst_bind, fst_bind. cbn [fst ret]. now rewrite Hc. }
  destruct Hu as [-> | ->]; exact Hgoal.
Qed.

Lemma configured_base_url_beats_the_directories_witness :
  fst (detectBaseUrl rootBaseProject) = ".".
Proof.
  apply configured_base_url_beats_the_directories; [now left | reflexivity].
Defined.

Lemma detectBaseUrl_probes context :
  noUserBaseUrl context ->
  configuredBaseUrl context = None ->
  fst (detectBaseUrl context)
  = fst (probeCommonDirs context
           (if isTypeScript context
            then ["src"; "lib"; "app"; "."]
            else ["src"; "app"; "lib"; "."])).
Proof.
  intros Hu Hc. unfold detectBaseUrl, configuredBaseUrl in *.
  assert (Hgoal :
    fst (e <- fs_existsSync context (NodePath.join [getCwd context; configFile_ context]) ;;
         fromConfig <- (if e then
                          t <- readJSON context
                                 (NodePath.join [getCwd context; configFile_ context]) ;;
                          ret (match t with
                               | Some t => configBaseUrl t
                               | None => None
                               end)
                        else ret None) ;;
         match fromConfig with
         | Some b => ret b
         | None =>
             probeCommonDirs context
               (if isTypeScript context
                then ["src"; "lib"; "app"; "."]
                else ["src"; "app"; "lib"; "."])
         end)%io
    = fst (probeCommonDirs context
             (if isTypeScript context
              then ["src"; "lib"; "app"; "."]
              else ["src"; "app"; "lib"; "."]))).
  { rewrite fst_bind. unfold fs_existsSync, readJSON. cbn [fst].
    destruct (fs context (NodePath.join [getCwd context; configFile_ context]))
      as [[text [t|] | names]|]; rewrite ?fst_bind; cbn [fst ret];
      rewrite ?fst_bind; cbn [fst ret]; rewrite ?Hc; reflexivity. }
  destruct Hu as [-> | ->]; exact Hgoal.
Qed.

Lemma probe_step context dir rest :
  fst (probeCommonDirs context (dir :: rest))
  = let dirPath :=
      NodePath.join [getCwd context; if String.eqb dir "." then "" else dir] in
    match fs context dirPath with
    | Some (Directory files) =>
        if hasSourceFiles context files || String.eqb dir "src" || String.eqb dir "app"
        then (if String.eqb dir "." then "./" else ("./" ++ dir)%string)
        else fst (probeCommonDirs context rest)
    | _ => fst (probeCommonDirs context rest)
    end.
Proof.
  cbn [probeCommonDirs]. cbv zeta. rewrite fst_bind.
  unfold fs_existsSync, fs_isDirectory, fs_readdirSync. cbn [fst].
  destruct (fs context (NodePath.join [getCwd context; if String.eqb dir "." then "" else dir]))
    as [[text json | files]|] eqn:E; rewrite fst_bind; cbn [fst ret]; try reflexivity.
  rewrite fst_bind. cbn [fst].
  now destruct (hasSourceFiles context files || String.eqb dir "src" || String.eqb dir "app").
Qed.

(** X21.  Without a [baseUrl] option and without a configured base, an
    existing directory [src] is the base whatever it holds; without [src],
    when [lib] holds a source file and [app] exists, a TypeScript file gets
    [./lib] and any other file gets [./app]. *)
Theorem probing_order_depends_on_the_file_type context :
  noUserBaseUrl context ->
  configuredBaseUrl context = None ->
  (isDirectory context (NodePath.join [getCwd context; "src"]) = true ->
   fst (detectBaseUrl context) = "./src")
  /\ (forall libNames,
         isDirectory context (NodePath.join [getCwd context; "src"]) = false ->
         fs context (NodePath.join [getCwd context; "lib"]) = Some (Directory libNames) ->
         hasSourceFiles context libNames = true ->
         isDirectory context (NodePath.join [getCwd context; "app"]) = true ->
         fst (detectBaseUrl context)
         = if isTypeScript context then "./lib" else "./app").
Proof.
  intros Hu Hc. rewrite (detectBaseUrl_probes Hu Hc). unfold isDirectory. split.
  - intros Hsrc.
    assert (H : forall rest, fst (probeCommonDirs context ("src" :: rest)) = "./src").
    { intros rest. rewrite probe_step. cbv zeta.
      change (if String.eqb "src" "." then "" else "src") with "src".
      destruct (fs context (NodePath.join [getCwd context; "src"])) as [[?|?]|];
        try discriminate.
      rewrite orb_true_r. reflexivity. }
    destruct (isTypeScript context); apply H.
  - intros libNames Hsrc Hlib Hfiles Happ.
    assert (Hs : forall rest, fst (probeCommonDirs context ("src" :: rest))
                              = fst (probeCommonDirs context rest)).
    { intros rest. rewrite probe_step. cbv zeta.
      change (if String.eqb "src" "." then "" else "src") with "src".
      destruct (fs context (NodePath.join [getCwd context; "src"])) as [[?|?]|];
        try discriminate; reflexivity. }
    destruct (isTypeScript context); rewrite Hs, probe_step; cbv zeta.
    + change (if String.eqb "lib" "." then "" else "lib") with "lib".
      rewrite Hlib, Hfiles. reflexivity.
    + change (if String.eqb "app" "." then "" else "app") with "app".
      destruct (fs context (NodePath.join [getCwd context; "app"])) as [[?|?]|];
        try discriminate.
      rewrite orb_true_r. reflexivity.
Qed.

Lemma probing_order_depends_on_the_file_type_witness :
  fst (detectBaseUrl (libAppFile "/proj/lib/index.ts")) = "./lib"
  /\ fst (detectBaseUrl (libAppFile "/proj/lib/index.js")) = "./app".
Proof.
  split.
  - refine (proj2 (@probing_order_depends_on_the_file_type
                     (libAppFile "/proj/lib/index.ts") (or_introl eq_refl) eq_refl)
                  ["index.ts"] eq_refl eq_refl eq_refl eq_refl).
  - refine (proj2 (@probing_order_depends_on_the_file_type
                     (libAppFile "/proj/lib/index.js") (or_introl eq_refl) eq_refl)
                  ["index.ts"] eq_refl eq_refl eq_refl eq_refl).
Defined.

(** *** [getPathMappings] *)

Lemma viteLoop_step scan context p rest :
  fst (viteLoop scan context (p :: rest))
  = match viteAliasesAt scan context p with
    | Some aliases => aliases
    | None => fst (viteLoop scan context rest)
    end.
Proof.
  cbn [viteLoop]. rewrite fst_bind. unfold fs_existsSync, fs_readFileSync, viteAliasesAt.
  cbn [fst].
  destruct (fs context p) as [[text json | names]|]; try reflexivity;
    rewrite fst_bind; cbn [fst]; [|reflexivity].
  now destruct (find nonEmpty (scan text)).
Qed.

Lemma viteLoop_first scan context c after aliases : forall before,
  (forall b, In b before -> viteAliasesAt scan context b = None) ->
  viteAliasesAt scan context c = Some aliases ->
  fst (viteLoop scan context (before ++ c :: after)) = aliases.
Proof.
  induction before as [|b before IH]; intros Hb Hc; cbn [app]; rewrite viteLoop_step.
  - now rewrite Hc.
  - rewrite (Hb b (or_introl eq_refl)). apply IH; [|assumption].
    intros b' Hb'. apply Hb. now right.
Qed.

Lemma viteLoop_none scan context l :
  (forall c, In c l -> viteAliasesAt scan context c = None) ->
  fst (viteLoop scan context l) = [].
Proof.
  induction l as [|c l IH]; intros H; [reflexivity|]. rewrite viteLoop_step.
  rewrite (H c (or_introl eq_refl)). apply IH. intros c' Hc'. apply H. now right.
Qed.

Lemma getPathMappings_sources scan context :
  manualPaths context = None ->
  fst (getPathMappings scan context)
  = if nonEmpty (configMappings context) then configMappings context
    else fst (viteLoop scan context (viteCandidates context)).
Proof.
  intros Hm. unfold getPathMappings, configMappings, viteCandidates. rewrite Hm.
  cbv zeta. rewrite fst_bind. unfold fs_existsSync. cbn [fst].
  destruct (fs context (NodePath.join [getCwd context; configFile_ context])) as [e|].
  - rewrite fst_bind.
    destruct (nonEmpty (fst (resolveProjectReferences context
                               (NodePath.join [getCwd context; configFile_ context]))));
      reflexivity.
  - rewrite fst_bind. reflexivity.
Qed.

(** X22.  Without a [paths] option, a non-empty set of mappings from the
    project config is used as it is.  Only when that set is empty are the
    bundler configs read, in the order [vite.config.js], [.ts], [.mjs],
    [.mts]: the first one in which the scan finds a non-empty alias object
    supplies the mappings, and none found gives no mapping. *)
Theorem bundler_config_is_the_last_resort scan context :
  manualPaths context = None ->
  (nonEmpty (configMappings context) = true ->
   fst (getPathMappings scan context) = configMappings context)
  /\ (configMappings context = [] ->
      forall before c after aliases,
        viteCandidates context = before ++ c :: after ->
        (forall b, In b before -> viteAliasesAt scan context b = None) ->
        viteAliasesAt scan context c = Some aliases ->
        fst (getPathMappings scan context) = aliases)
  /\ (configMappings context = [] ->
      (forall c, In c (viteCandidates context) -> viteAliasesAt scan context c = None) ->
      fst (getPathMappings scan context) = []).
Proof.
  intros Hm. rewrite (@getPathMappings_sources scan context Hm). split; [|split].
  - now intros ->.
  - intros -> before c after aliases -> Hb Hc. cbn [nonEmpty].
    now apply viteLoop_first.
  - intros -> Hn. cbn [nonEmpty]. now apply viteLoop_none.
Qed.

Lemma bundler_config_is_the_last_resort_witness :
  fst (getPathMappings viteScan viteProject) = [("@app/*", ["./src/*"])]
  /\ fst (getPathMappings noScan viteProject) = [].
Proof.
  pose proof (@bundler_config_is_the_last_resort viteScan viteProject eq_refl)
    as (_ & Hfirst & _).
  pose proof (@bundler_config_is_the_last_resort noScan viteProject eq_refl)
    as (_ & _ & Hnone).
  split.
  - apply (Hfirst eq_refl ["/proj/vite.config.js"] "/proj/vite.config.ts"
                  ["/proj/vite.config.mjs"; "/proj/vite.config.mts"]);
      [reflexivity | | reflexivity].
    intros b [<- | []]. reflexivity.
  - apply (Hnone eq_refl). intros c Hc. cbn in Hc.
    repeat (destruct Hc as [<- | Hc]; [reflexivity|]). contradiction.
Defined.

(** *** The keys of the merged mappings *)

Lemma keys_obj_set o k v k' :
  In k' (keys (obj_set o k v)) <-> k' = k \/ In k' (keys o).
Proof.
  unfold keys. induction o as [|[k0 v0] o IH]; cbn [obj_set map fst In].
  - intuition.
  - destruct (String.eqb k0 k) eqn:E; cbn [map fst In].
    + apply String.eqb_eq in E. subst k0. intuition.
    + rewrite IH. intuition.
Qed.

Lemma NoDup_obj_set o k v : NoDup (keys o) -> NoDup (keys (obj_set o k v)).
Proof.
  unfold keys. induction o as [|[k0 v0] o IH]; cbn [obj_set map fst]; intros H.
  - constructor; [intros [] | constructor].
  - destruct (String.eqb k0 k) eqn:E; cbn [map fst]; [assumption|].
    inversion H as [|? ? Hn Hd]; subst. constructor; [|now apply IH].
    intros Hin. apply (keys_obj_set o k v k0) in Hin.
    destruct Hin as [-> | Hin]; [|contradiction].
    now rewrite String.eqb_refl in E.
Qed.

Lemma keys_obj_assign source : forall target k,
  In k (keys (obj_assign target source)) <-> In k (keys target) \/ In k (keys source).
Proof.
  unfold obj_assign.
  induction source as [|[k0 v0] source IH]; intros target k; cbn [fold_left].
  - unfold keys. cbn. intuition.
  - rewrite IH, keys_obj_set. unfold keys. cbn [map fst In]. intuition.
Qed.

Lemma NoDup_obj_assign source : forall target,
  NoDup (keys target) -> NoDup (keys (obj_assign target source)).
Proof.
  unfold obj_assign.
  induction source as [|[k0 v0] source IH]; intros target H; cbn [fold_left];
    [assumption|].
  apply IH. now apply NoDup_obj_set.
Qed.

Section MergedKeys.
Variable context : Context.
Variable projectRoot : string.

Lemma keys_fold_merge refs : forall allPaths k,
  In k (keys (fold_left (mergeOne context projectRoot) refs allPaths))
  <-> In k (keys allPaths)
      \/ exists ref p, In ref refs
                       /\ referencePaths context projectRoot ref = Some p
                       /\ In k (keys p).
Proof.
  induction refs as [|ref refs IH]; intros allPaths k; cbn [fold_left].
  - split; [now left | intros [H | (ref & p & [] & _)]; assumption].
  - rewrite IH. unfold mergeOne.
    destruct (referencePaths context projectRoot ref) as [p|] eqn:E.
    + rewrite keys_obj_assign. split.
      * intros [[H | H] | (r & q & Hr & Hq & Hk)].
        -- now left.
        -- right. exists ref, p. repeat split; [now left | assumption | assumption].
        -- right. exists r, q. repeat split; [now right | assumption | assumption].
      * intros [H | (r & q & [<- | Hr] & Hq & Hk)].
        -- left. now left.
        -- left. right. congruence.
        -- right. exists r, q. repeat split; assumption.
    + split.
      * intros [H | (r & q & Hr & Hq & Hk)]; [now left|].
        right. exists r, q. repeat split; [now right | assumption | assumption].
      * intros [H | (r & q & [<- | Hr] & Hq & Hk)]; [now left | congruence |].
        right. exists r, q. repeat split; assumption.
Qed.

Lemma NoDup_fold_merge refs : forall allPaths,
  NoDup (keys allPaths) ->
  NoDup (keys (fold_left (mergeOne context projectRoot) refs allPaths)).
Proof.
  induction refs as [|ref refs IH]; intros allPaths H; cbn [fold_left]; [assumption|].
  apply IH. unfold mergeOne.
  destruct (referencePaths context projectRoot ref); [|assumption].
  now apply NoDup_obj_assign.
Qed.
End MergedKeys.

(** X23.  When the project config declares references, the merged mappings
    hold each key once, and their keys are exactly the keys of the parent
    together with the keys of the referenced configs that can be read. *)
Theorem merged_mappings_hold_every_declared_key_once
        context tsconfigPath text tsconfig refs :
  fs context tsconfigPath = Some (File text (Some tsconfig)) ->
  references tsconfig = Some refs ->
  wf_object (fst (resolveProjectReferences context tsconfigPath))
  /\ forall k,
       In k (keys (fst (resolveProjectReferences context tsconfigPath)))
       <-> In k (keys (parentPaths tsconfig))
           \/ exists ref p,
                In ref refs
                /\ referencePaths context (NodePath.dirname tsconfigPath) ref = Some p
                /\ In k (keys p).
Proof.
  intros Hfs Hrefs.
  rewrite (resolveProjectReferences_with_references _ _ Hfs Hrefs), mergeReferences_fold.
  split.
  - apply NoDup_fold_merge, NoDup_obj_assign. constructor.
  - intros k. rewrite keys_fold_merge, keys_obj_assign. cbn [keys map In]. tauto.
Qed.

Lemma merged_mappings_hold_every_declared_key_once_witness :
  wf_object (fst (resolveProjectReferences monorepo "/proj/tsconfig.json"))
  /\ forall k,
       In k (keys (fst (resolveProjectReferences monorepo "/proj/tsconfig.json")))
       <-> In k (keys (parentPaths parentConfig))
           \/ exists ref p,
                In ref [ {| ref_path := "./packages/broken" |};
                         {| ref_path := "./packages/ui" |} ]
                /\ referencePaths monorepo (NodePath.dirname "/proj/tsconfig.json") ref
                   = Some p
                /\ In k (keys p).
Proof.
  exact (@merged_mappings_hold_every_declared_key_once monorepo "/proj/tsconfig.json"
           "{ parent }" parentConfig _ eq_refl eq_refl).
Defined.

(** *** Where the reports stand *)

Lemma checkPath_length context v kind target importPath :
  List.length (checkPath context v kind target importPath) <= 1.
Proof.
  unfold checkPath.
  destruct (shouldUseAlias _ _ _ _); [|cbn; lia].
  destruct (findMatchingAlias _ _ _ _) as [[|? ?]|]; cbn; lia.
Qed.

Lemma visitAll_length context v evs : forall reports,
  visitAll context v evs = Reports reports ->
  List.length reports <= List.length evs.
Proof.
  induction evs as [|ev evs IH]; intros reports Hv.
  - cbn in Hv. injection Hv as <-. cbn. lia.
  - cbn [visitAll] in Hv.
    destruct (match ev with
              | EImport n => Reports (ImportDeclaration context v n)
              | ECall n => CallExpression context v n
              end) as [r1| |] eqn:E1; try discriminate.
    destruct (visitAll context v evs) as [r2| |] eqn:E2; try discriminate.
    injection Hv as <-. specialize (IH r2 eq_refl).
    assert (Hlen : List.length r1 <= 1).
    { destruct ev as [n | n].
      - injection E1 as <-. apply checkPath_length.
      - unfold CallExpression in E1.
        destruct (callee_name n) as [name|]; [|injection E1 as <-; cbn; lia].
        destruct (arguments n) as [|[l|] [|]]; try (injection E1 as <-; cbn; lia).
        destruct (String.eqb name "require"); [|injection E1 as <-; cbn; lia].
        destruct (value l); [|discriminate]. injection E1 as <-.
        apply checkPath_length. }
    rewrite List.length_app. cbn [List.length]. lia.
Qed.

Lemma visitAll_sound context v evs r : forall reports,
  visitAll context v evs = Reports reports ->
  In r reports ->
  exists ev target importPath,
    In ev evs
    /\ visitedLiteral ev target importPath
    /\ shouldUseAlias context v importPath (getFilename context) = true
    /\ aliasFix context v target importPath r.
Proof.
  induction evs as [|ev evs IH]; intros reports Hv Hr.
  - cbn in Hv. injection Hv as <-. contradiction.
  - cbn [visitAll] in Hv.
    destruct (match ev with
              | EImport n => Reports (ImportDeclaration context v n)
              | ECall n => CallExpression context v n
              end) as [r1| |] eqn:E1; try discriminate.
    destruct (visitAll context v evs) as [r2| |] eqn:E2; try discriminate.
    injection Hv as <-.
    apply in_app_or in Hr. destruct Hr as [Hr | Hr].
    + destruct ev as [n | n].
      * injection E1 as <-. unfold ImportDeclaration in Hr.
        destruct (@checkPath_spec context v _ _ _ r Hr) as [Hs Hf].
        exists (EImport n), (source_range n), (source_value n).
        repeat split; [now left | assumption | assumption].
      * unfold CallExpression in E1.
        destruct (callee_name n) as [name|] eqn:En;
          [|injection E1 as <-; contradiction].
        destruct (arguments n) as [|[l|] [|]] eqn:Ea;
          try (injection E1 as <-; contradiction).
        destruct (String.eqb name "require") eqn:Er;
          [|injection E1 as <-; contradiction].
        apply String.eqb_eq in Er. subst name.
        destruct (value l) as [importPath|] eqn:Ev; [|discriminate].
        injection E1 as <-.
        destruct (@checkPath_spec context v _ _ _ r Hr) as [Hs Hf].
        exists (ECall n), (l_range l), importPath.
        split; [now left|]. split; [|split; assumption].
        cbn [visitedLiteral]. rewrite En, Ea. split; [reflexivity|].
        exists l. repeat split; assumption.
    + destruct (IH r2 eq_refl Hr) as (ev' & target & importPath & Hin & Hrest).
      exists ev', target, importPath. split; [now right | assumption].
Qed.

(** X24.  A run that yields reports yields at most one per visited node,
    and every report stands on the source literal of a visited import or on
    the string literal of a visited one-argument [require] call, whose path
    passes [shouldUseAlias]; its fix replaces that literal by the alias
    between single quotes. *)
Theorem reports_stand_on_visited_literals context v evs reports r :
  visitAll context v evs = Reports reports ->
  In r reports ->
  List.length reports <= List.length evs
  /\ exists ev target importPath,
       In ev evs
       /\ visitedLiteral ev target importPath
       /\ shouldUseAlias context v importPath (getFilename context) = true
       /\ aliasFix context v target importPath r.
Proof.
  intros Hv Hr. split.
  - now apply (@visitAll_length context v evs).
  - now apply (@visitAll_sound context v evs r reports).
Qed.

Lemma reports_stand_on_visited_literals_witness :
  1 <= 2
  /\ exists ev target importPath,
       In ev [EImport importHelpers; EImport importDeepHelpers]
       /\ visitedLiteral ev target importPath
       /\ shouldUseAlias (buttonFile [("@/*", ["./*"])]) buttonVisitor importPath
                         "/proj/src/components/Button.tsx" = true
       /\ aliasFix (buttonFile [("@/*", ["./*"])]) buttonVisitor target importPath
            {| r_node := (24, 42);
               message := "Use path alias '@/utils/helpers' instead of relative import '../utils/helpers'";
               fix_ := ReplaceText (24, 42) "'@/utils/helpers'" |}.
Proof.
  refine (@reports_stand_on_visited_literals (buttonFile [("@/*", ["./*"])])
            buttonVisitor [EImport importHelpers; EImport importDeepHelpers]
            _ _ eq_refl (or_introl eq_refl)).
Defined.

(** *** Direct children of the base directory, on the sample file *)

Lemma direct_children_iff_witness :
  shouldUseAlias (buttonFile [("@/*", ["./*"])]) buttonVisitor "../utils/helpers"
                 (getFilename (buttonFile [("@/*", ["./*"])])) = true
  <-> exists child name,
        NodePath.segments
          (NodePath.resolve (getCwd (buttonFile [("@/*", ["./*"])]))
             [NodePath.dirname (getFilename (buttonFile [("@/*", ["./*"])]));
              "../utils/helpers"])
        = NodePath.segments
            (NodePath.resolve (getCwd (buttonFile [("@/*", ["./*"])]))
               [getCwd (buttonFile [("@/*", ["./*"])]); finalBaseUrl buttonVisitor])
          ++ [child; name]
        /\ JS.startsWith child ".." = false.
Proof.
  apply (@direct_children_iff (buttonFile [("@/*", ["./*"])]) buttonVisitor
           "../utils/helpers"); reflexivity.
Defined.

End EnforcePathAliasFacts.
